(** * SoapySDRUtil: the command-line diagnostic utility of SoapySDR

    A shallow embedding of [apps/SoapySDRUtil.cpp].  The utility is a thin
    driver over the SoapySDR library: every workflow is a short sequence of
    library calls interleaved with writes to [std::cout] and [std::cerr].
    The library (module loader, registry, device factory, the deep-probe
    formatter, the rate test) and the C/C++ runtime ([getopt_long_only],
    [std::stod], [stat]) are external to the file; they are taken as an
    interface, [SoapySDR], and every theorem holds for all implementations
    of it.  The workflows themselves are written in a small monad with
    state (the environment, both output streams and a log of the library
    calls that have side effects) and C++ exceptions. *)

From Stdlib Require Import String Ascii List ZArith Lia Bool.
From Stdlib Require Import Sorting.Sorted Sorting.Permutation Sorting.Mergesort.
From Stdlib Require Import Structures.Orders.
From Stdlib Require Import Numbers.DecimalString.
From Stdlib Require OrderedTypeEx.
Import ListNotations.
Local Open Scope Z_scope.
Local Open Scope list_scope.
Local Open Scope string_scope.

(** ** Strings, [std::map] and [size_t] *)

(** [std::endl] writes a newline (and flushes). *)
Definition endl : string := String (ascii_of_nat 10) EmptyString.

(** The tab and the double quote of the usage text. *)
Definition tab : string := String (ascii_of_nat 9) EmptyString.
Definition quote : string := String (ascii_of_nat 34) EmptyString.

(** [std::string(n, ' ')] *)
Fixpoint spaces (n : nat) : string :=
  match n with
  | O => EmptyString
  | S k => String " "%char (spaces k)
  end.

(** [operator<<] for a [size_t]: decimal digits. *)
Definition dec (n : nat) : string := NilEmpty.string_of_uint (Nat.to_uint n).

(** [size_t] is a 64-bit unsigned integer; subtraction wraps around. *)
Definition SIZE_WIDTH : Z := 64.
Definition size_t_sub (a b : Z) : Z := (a - b) mod 2 ^ SIZE_WIDTH.

(** [s.size()] *)
Definition size (s : string) : Z := Z.of_nat (String.length s).

(** A [std::map<std::string, V>], given by its in-order traversal (which is
    what a range-for over the map visits). *)
Definition stdmap (V : Type) : Type := list (string * V).

(** [m.find(key)]: [None] stands for [m.end()]. *)
Fixpoint find {V : Type} (key : string) (m : stdmap V) : option V :=
  match m with
  | [] => None
  | (k, v) :: rest => if String.eqb k key then Some v else find key rest
  end.

(** [SoapySDR::Kwargs] is [std::map<std::string, std::string>]. *)
Definition Kwargs : Type := stdmap string.

(** [std::sort] on a [std::vector<std::string>]: ascending with respect to
    [operator<] of [std::string], the lexicographic order on bytes. *)
Module StringOrder <: TotalLeBool.
Definition t := string.
Definition leb := String.leb.
Definition leb_total :
  forall a1 a2, leb a1 a2 = true \/ leb a2 a1 = true := String.leb_total.
End StringOrder.

Module StringSort := Sort StringOrder.

Definition std_sort (v : list string) : list string := StringSort.sort v.

(** [std::setw(5) << s]: right-aligned in a field of five characters. *)
Definition setw5 (s : string) : string :=
  spaces (5 - String.length s) ++ s.

(** [std::string::empty] *)
Definition empty (s : string) : bool :=
  match s with EmptyString => true | _ => false end.

Definition EXIT_SUCCESS : Z := 0.
Definition EXIT_FAILURE : Z := 1.

(** ** Exceptions and results *)

(** What a C++ call can throw: an object derived from [std::exception],
    which carries a message, or anything else. *)
Inductive exn : Type :=
| std_exception (what : string)
| foreign_exception.

Inductive result (A : Type) : Type :=
| Ok (a : A)
| Throw (e : exn).
Arguments Ok {A} a.
Arguments Throw {A} e.

Definition is_ok {A : Type} (r : result A) : bool :=
  match r with Ok _ => true | Throw _ => false end.

(** ** The external interface

    The environment [Env] is the state of everything outside the file: the
    process-wide module registry, the file system, the attached hardware.
    Calls that may change it return the new environment. *)
Class SoapySDR : Type := {
  Env : Type;
  Device : Type;
  FindFunction : Type;
  double : Type;
  (* Version.hpp *)
  api_getLibVersion : Env -> string;
  api_getAPIVersion : Env -> string;
  api_getABIVersion : Env -> string;
  (* Modules.hpp *)
  api_getRootPath : Env -> string;
  api_listSearchPaths : Env -> list string;
  api_listModules : Env -> list string;
  api_loadModule : string -> Env -> string * Env;
  api_getModuleVersion : string -> Env -> string;
  api_loadModules : Env -> Env;
  (* Registry.hpp, ConverterRegistry.hpp *)
  api_listFindFunctions : Env -> stdmap FindFunction;
  api_listAvailableSourceFormats : Env -> list string;
  api_listTargetFormats : string -> Env -> list string;
  (* Types.hpp, Device.hpp *)
  api_KwargsToString : Kwargs -> string;
  api_enumerate : string -> Env -> list Kwargs * Env;
  api_make : string -> Env -> result Device * Env;
  api_unmake : Device -> Env -> result unit * Env;
  api_getDriverKey : Device -> Env -> result string;
  api_getHardwareKey : Device -> Env -> result string;
  api_getHardwareInfo : Device -> Env -> result Kwargs;
  (* the two helpers declared at the top of the file *)
  api_SoapySDRDeviceProbe : Device -> Env -> result string * Env;
  api_SoapySDRRateTest :
    string -> double -> string -> string -> Env -> result Z * Env;
  (* <sys/stat.h>: [stat(path, &info) != 0] *)
  api_stat_fails : string -> Env -> bool;
  (* <string>, and the [double] literal and comparison used by [main] *)
  api_stod : string -> result double;
  double_zero : double;
  double_neq : double -> double -> bool
}.

(** ** The monad of the workflows *)

Section Util.
Context {lib : SoapySDR}.

(** The library calls with side effects, in the order they were made. *)
Inductive call : Type :=
| call_loadModules
| call_loadModule (path : string)
| call_enumerate (args : string)
| call_make (args : string) (returned : option Device)
| call_unmake (device : Device)
| call_probe (device : Device)
| call_rateTest (args : string) (rate : double) (chans dir : string).

Record world : Type := World {
  env : Env;
  cout : string;
  cerr : string;
  calls : list call
}.

(** A computation runs from a world to a world and either returns or
    throws; what it did before throwing stays done. *)
Definition M (A : Type) : Type := world -> result A * world.

Definition ret {A : Type} (a : A) : M A := fun w => (Ok a, w).

Definition bind {A B : Type} (m : M A) (k : A -> M B) : M B :=
  fun w =>
    match m w with
    | (Ok a, w') => k a w'
    | (Throw e, w') => (Throw e, w')
    end.

(** [try { body } catch (const std::exception &ex) { handler(ex.what()) }]:
    an exception of another type passes through. *)
Definition try_catch {A : Type} (body : M A) (handler : string -> M A) : M A :=
  fun w =>
    match body w with
    | (Throw (std_exception what), w') => handler what w'
    | other => other
    end.

Notation "x <- m ;; k" := (bind m (fun x => k))
  (at level 61, m at next level, right associativity).
Notation "m ;; k" := (bind m (fun _ => k))
  (at level 61, right associativity).

(** [std::cout << s] and [std::cerr << s] *)
Definition cout_put (s : string) : M unit :=
  fun w => (Ok tt, World (env w) (cout w ++ s) (cerr w) (calls w)).
Definition cerr_put (s : string) : M unit :=
  fun w => (Ok tt, World (env w) (cout w) (cerr w ++ s) (calls w)).

(** A query that leaves the environment as it is. *)
Definition read {A : Type} (f : Env -> A) : M A :=
  fun w => (Ok (f (env w)), w).

(** A query that can throw and leaves the environment as it is. *)
Definition read_result {A : Type} (f : Env -> result A) : M A :=
  fun w => (f (env w), w).

(** A call that changes the environment and is logged. *)
Definition invoke {A : Type} (f : Env -> result A * Env)
    (entry : result A -> call) : M A :=
  fun w =>
    let (r, e) := f (env w) in
    (r, World e (cout w) (cerr w) (calls w ++ [entry r])).

Definition when (b : bool) (m : M unit) : M unit :=
  if b then m else ret tt.

(** [for (const auto &x : xs) body(x);] *)
Fixpoint for_each {A : Type} (xs : list A) (body : A -> M unit) : M unit :=
  match xs with
  | [] => ret tt
  | x :: rest => body x ;; for_each rest body
  end.

(** [for (size_t i = start; i < start + xs.size(); i++) body(i, xs[i - start]);] *)
Fixpoint for_index {A : Type} (start : nat) (xs : list A)
    (body : nat -> A -> M unit) : M unit :=
  match xs with
  | [] => ret tt
  | x :: rest => body start x ;; for_index (S start) rest body
  end.

(** *** The library calls, as computations *)

Definition loadModules : M unit :=
  invoke (fun e => (Ok tt, api_loadModules e)) (fun _ => call_loadModules).

Definition loadModule (path : string) : M string :=
  invoke (fun e => let (msg, e') := api_loadModule path e in (Ok msg, e'))
         (fun _ => call_loadModule path).

Definition Device_enumerate (args : string) : M (list Kwargs) :=
  invoke (fun e => let (rs, e') := api_enumerate args e in (Ok rs, e'))
         (fun _ => call_enumerate args).

Definition Device_make (args : string) : M Device :=
  invoke (api_make args)
         (fun r => call_make args
                     match r with Ok d => Some d | Throw _ => None end).

Definition Device_unmake (device : Device) : M unit :=
  invoke (api_unmake device) (fun _ => call_unmake device).

Definition SoapySDRDeviceProbe (device : Device) : M string :=
  invoke (api_SoapySDRDeviceProbe device) (fun _ => call_probe device).

Definition SoapySDRRateTest (argStr : string) (sampleRate : double)
    (channelStr directionStr : string) : M Z :=
  invoke (api_SoapySDRRateTest argStr sampleRate channelStr directionStr)
         (fun _ => call_rateTest argStr sampleRate channelStr directionStr).

(** ** The workflows *)

Definition printBanner : M unit :=
  cerr_put
    ("######################################################" ++ endl ++
     "##     Soapy SDR -- the SDR abstraction library     ##" ++ endl ++
     "######################################################" ++ endl ++
     endl).

Definition usage : string :=
  "Usage SoapySDRUtil [options]" ++ endl ++
  "  Options summary:" ++ endl ++
  "    --help " ++ tab ++ tab ++ tab ++ tab ++ " Print this help message" ++ endl ++
  "    --info " ++ tab ++ tab ++ tab ++ tab ++ " Print module information" ++ endl ++
  "    --find[=" ++ quote ++ "driver=foo,type=bar" ++ quote ++ "] " ++ tab
    ++ " Discover available devices" ++ endl ++
  "    --make[=" ++ quote ++ "driver=foo,type=bar" ++ quote ++ "] " ++ tab
    ++ " Create a device instance" ++ endl ++
  "    --probe[=" ++ quote ++ "driver=foo,type=bar" ++ quote ++ "] " ++ tab
    ++ " Print detailed information" ++ endl ++
  endl ++
  "  Advanced options:" ++ endl ++
  "    --check[=driverName] " ++ tab ++ tab ++ " Check if driver is present" ++ endl ++
  "    --sparse             " ++ tab ++ tab ++ " Simplified output for --find" ++ endl ++
  endl ++
  "  Rate testing options:" ++ endl ++
  "    --args[=" ++ quote ++ "driver=foo" ++ quote ++ "] " ++ tab ++ tab
    ++ " Arguments for testing" ++ endl ++
  "    --rate[=stream rate Sps] " ++ tab ++ tab ++ " Rate in samples per second" ++ endl ++
  "    --channels[=" ++ quote ++ "0, 1, 2" ++ quote ++ "] " ++ tab ++ tab
    ++ " List of channels, default 0" ++ endl ++
  "    --direction[=RX or TX] " ++ tab ++ tab ++ " Specify the channel direction" ++ endl ++
  endl.

Definition printHelp : M Z :=
  cerr_put usage ;;
  ret EXIT_SUCCESS.

(** The padding of an annotated line of the info report:
    [std::string(maxPathLen - s.size(), ' ')]. *)
Definition padding (maxPathLen : Z) (s : string) : string :=
  spaces (Z.to_nat (size_t_sub maxPathLen (size s))).

(** [for (const auto &s : xs) maxPathLen = std::max(maxPathLen, s.size());] *)
Definition max_size (maxPathLen : Z) (xs : list string) : Z :=
  fold_left (fun m s => Z.max m (size s)) xs maxPathLen.

(** The comma-separated lists of the info report. *)
Definition join_names (names : list string) : string :=
  fold_left
    (fun acc name => (if negb (empty acc) then acc ++ ", " else acc) ++ name)
    names EmptyString.

Definition printInfo : M Z :=
  v <- read api_getLibVersion ;; cout_put ("Lib Version: v" ++ v ++ endl) ;;
  v <- read api_getAPIVersion ;; cout_put ("API Version: v" ++ v ++ endl) ;;
  v <- read api_getABIVersion ;; cout_put ("ABI Version: v" ++ v ++ endl) ;;
  v <- read api_getRootPath ;; cout_put ("Install root: " ++ v ++ endl) ;;
  (* max path length for alignment *)
  searchPaths <- read api_listSearchPaths ;;
  modules <- read api_listModules ;;
  let maxPathLen := max_size (max_size 0 searchPaths) modules in
  (* print search path information *)
  for_each searchPaths (fun path =>
    missing <- read (api_stat_fails path) ;;
    cout_put ("Search path:  " ++ path) ;;
    when missing (cout_put (padding maxPathLen path ++ " (missing)")) ;;
    cout_put endl) ;;
  (* load each module and print information *)
  for_each modules (fun mod_ =>
    cout_put ("Module found: " ++ mod_) ;;
    errMsg <- loadModule mod_ ;;
    when (negb (empty errMsg)) (cout_put (endl ++ "  " ++ errMsg)) ;;
    version <- read (api_getModuleVersion mod_) ;;
    when (negb (empty version))
      (cout_put (padding maxPathLen mod_ ++ " (" ++ version ++ ")")) ;;
    cout_put endl) ;;
  when (match modules with [] => true | _ => false end)
    (cout_put ("No modules found!" ++ endl)) ;;
  cout_put "Available factories... " ;;
  found <- read api_listFindFunctions ;;
  let factories := join_names (map fst found) in
  let factories :=
    if empty factories then "No factories found!" else factories in
  cout_put (factories ++ endl) ;;
  cout_put ("Available converters..." ++ endl) ;;
  sources <- read api_listAvailableSourceFormats ;;
  for_each sources (fun source =>
    targets <- read (api_listTargetFormats source) ;;
    cout_put (" - " ++ setw5 source ++ " -> [" ++ join_names targets ++ "]"
              ++ endl)) ;;
  ret EXIT_SUCCESS.

(** The line a descriptor contributes in sparse mode. *)
Definition sparse_entry (descriptor : Kwargs) : string :=
  match find "label" descriptor with
  | Some label => label
  | None => api_KwargsToString descriptor
  end.

Definition findDevices (argStr : string) (sparse : bool) : M Z :=
  results <- Device_enumerate argStr ;;
  (if sparse then
     let sparseResults :=
       fold_left (fun v r => (v ++ [sparse_entry r])%list) results [] in
     let sparseResults := std_sort sparseResults in
     for_index 0 sparseResults (fun i s =>
       cout_put (dec i ++ ": " ++ s ++ endl))
   else
     for_index 0 results (fun i r =>
       cout_put ("Found device " ++ dec i ++ endl) ;;
       for_each r (fun it =>
         cout_put ("  " ++ fst it ++ " = " ++ snd it ++ endl)) ;;
       cout_put endl) ;;
     match results with
     | [] => cerr_put ("No devices found!" ++ endl)
     | _ => cout_put endl
     end) ;;
  ret (match results with [] => EXIT_FAILURE | _ => EXIT_SUCCESS end).

(** Both device workflows leave their [try] block either by falling out of
    it ([None]) or by the [return] of the handler ([Some code]).  The
    operands of a chain of [<<] are evaluated from left to right: the text
    before a call is written before the call is made. *)
Definition makeDevice (argStr : string) : M Z :=
  cout_put ("Make device " ++ argStr ++ endl) ;;
  returned <-
    try_catch
      (device <- Device_make argStr ;;
       cout_put "  driver=" ;;
       key <- read_result (api_getDriverKey device) ;;
       cout_put (key ++ endl) ;;
       cout_put "  hardware=" ;;
       key <- read_result (api_getHardwareKey device) ;;
       cout_put (key ++ endl) ;;
       info <- read_result (api_getHardwareInfo device) ;;
       for_each info (fun it =>
         cout_put ("  " ++ fst it ++ "=" ++ snd it ++ endl)) ;;
       Device_unmake device ;;
       ret None)
      (fun what =>
         cerr_put ("Error making device: " ++ what ++ endl) ;;
         ret (Some EXIT_FAILURE)) ;;
  match returned with
  | Some code => ret code
  | None => cout_put endl ;; ret EXIT_SUCCESS
  end.

Definition probeDevice (argStr : string) : M Z :=
  cout_put ("Probe device " ++ argStr ++ endl) ;;
  returned <-
    try_catch
      (device <- Device_make argStr ;;
       text <- SoapySDRDeviceProbe device ;;
       cout_put (text ++ endl) ;;
       Device_unmake device ;;
       ret None)
      (fun what =>
         cerr_put ("Error probing device: " ++ what ++ endl) ;;
         ret (Some EXIT_FAILURE)) ;;
  match returned with
  | Some code => ret code
  | None => cout_put endl ;; ret EXIT_SUCCESS
  end.

Definition checkDriver (driverName : string) : M Z :=
  cout_put "Loading modules... " ;;
  loadModules ;;
  cout_put ("done" ++ endl) ;;
  cout_put ("Checking driver '" ++ driverName ++ "'... ") ;;
  factories <- read api_listFindFunctions ;;
  match find driverName factories with
  | None => cout_put ("MISSING!" ++ endl) ;; ret EXIT_FAILURE
  | Some _ => cout_put ("PRESENT" ++ endl) ;; ret EXIT_SUCCESS
  end.

(** ** [main]

    [getopt_long_only] belongs to the C library.  A command line is taken
    as the sequence of results it yields for [argv], one per recognised or
    rejected option, before it returns -1: the value returned ([val] of the
    matched entry of [long_options], or ['?']) and [optarg] ([None] for
    [nullptr]).  The diagnostic that [getopt_long_only] itself writes to
    the error stream for an option it rejects is the C library's and is
    not part of the model: [cerr] holds what this file writes. *)
Record getopt_result : Type := Getopt {
  opt : ascii;
  optarg : option string
}.

(** The local variables of [main]. *)
Record locals : Type := Locals {
  argStr : string;
  chanStr : string;
  dirStr : string;
  sampleRate : double;
  driverName : string;
  findDevicesFlag : bool;
  sparsePrintFlag : bool;
  makeDeviceFlag : bool;
  probeDeviceFlag : bool
}.

Definition initial_locals : locals :=
  Locals EmptyString EmptyString EmptyString double_zero EmptyString
         false false false false.

(** [if (optarg != nullptr) x = optarg;] *)
Definition assign (x : string) (arg : option string) : string :=
  match arg with Some v => v | None => x end.

Definition set_argStr (st : locals) (arg : option string) : locals :=
  Locals (assign (argStr st) arg) (chanStr st) (dirStr st) (sampleRate st)
         (driverName st) (findDevicesFlag st) (sparsePrintFlag st)
         (makeDeviceFlag st) (probeDeviceFlag st).

(** [std::stod(optarg)], which throws on text that is not a number. *)
Definition stod (text : string) : M double :=
  fun w => (api_stod text, w).

(** One turn of the [switch]: [inl code] is a [return code] out of [main],
    [inr st] is a [break] with the updated variables. *)
Definition handle_option (g : getopt_result) (st : locals) : M (Z + locals) :=
  let c := opt g in
  if Ascii.eqb c "h" then
    printBanner ;; code <- printHelp ;; ret (inl code)
  else if Ascii.eqb c "i" then
    printBanner ;; code <- printInfo ;; ret (inl code)
  else if Ascii.eqb c "f" then
    let st := set_argStr st (optarg g) in
    ret (inr (Locals (argStr st) (chanStr st) (dirStr st) (sampleRate st)
                (driverName st) true (sparsePrintFlag st)
                (makeDeviceFlag st) (probeDeviceFlag st)))
  else if Ascii.eqb c "m" then
    let st := set_argStr st (optarg g) in
    ret (inr (Locals (argStr st) (chanStr st) (dirStr st) (sampleRate st)
                (driverName st) (findDevicesFlag st) (sparsePrintFlag st)
                true (probeDeviceFlag st)))
  else if Ascii.eqb c "p" then
    let st := set_argStr st (optarg g) in
    ret (inr (Locals (argStr st) (chanStr st) (dirStr st) (sampleRate st)
                (driverName st) (findDevicesFlag st) (sparsePrintFlag st)
                (makeDeviceFlag st) true))
  else if Ascii.eqb c "c" then
    ret (inr (Locals (argStr st) (chanStr st) (dirStr st) (sampleRate st)
                (assign (driverName st) (optarg g)) (findDevicesFlag st)
                (sparsePrintFlag st) (makeDeviceFlag st) (probeDeviceFlag st)))
  else if Ascii.eqb c "s" then
    ret (inr (Locals (argStr st) (chanStr st) (dirStr st) (sampleRate st)
                (driverName st) (findDevicesFlag st) true
                (makeDeviceFlag st) (probeDeviceFlag st)))
  else if Ascii.eqb c "a" then
    ret (inr (set_argStr st (optarg g)))
  else if Ascii.eqb c "r" then
    match optarg g with
    | Some text =>
        rate <- stod text ;;
        ret (inr (Locals (argStr st) (chanStr st) (dirStr st) rate
                    (driverName st) (findDevicesFlag st) (sparsePrintFlag st)
                    (makeDeviceFlag st) (probeDeviceFlag st)))
    | None => ret (inr st)
    end
  else if Ascii.eqb c "n" then
    ret (inr (Locals (argStr st) (assign (chanStr st) (optarg g)) (dirStr st)
                (sampleRate st) (driverName st) (findDevicesFlag st)
                (sparsePrintFlag st) (makeDeviceFlag st) (probeDeviceFlag st)))
  else if Ascii.eqb c "d" then
    ret (inr (Locals (argStr st) (chanStr st) (assign (dirStr st) (optarg g))
                (sampleRate st) (driverName st) (findDevicesFlag st)
                (sparsePrintFlag st) (makeDeviceFlag st) (probeDeviceFlag st)))
  else
    ret (inr st).

(** The [while] loop over the options. *)
Fixpoint option_loop (argv : list getopt_result) (st : locals)
    : M (Z + locals) :=
  match argv with
  | [] => ret (inr st)
  | g :: rest =>
      r <- handle_option g st ;;
      match r with
      | inl code => ret (inl code)
      | inr st' => option_loop rest st'
      end
  end.

(** What follows the loop: the banner, then the first workflow whose
    condition holds. *)
Definition dispatch (st : locals) : M Z :=
  when (negb (sparsePrintFlag st)) printBanner ;;
  if negb (empty (driverName st)) then checkDriver (driverName st)
  else if findDevicesFlag st then findDevices (argStr st) (sparsePrintFlag st)
  else if makeDeviceFlag st then makeDevice (argStr st)
  else if probeDeviceFlag st then probeDevice (argStr st)
  (* invoke utilities that rely on multiple arguments *)
  else if double_neq (sampleRate st) double_zero then
    SoapySDRRateTest (argStr st) (sampleRate st) (chanStr st) (dirStr st)
  (* unknown or unspecified options, do help... *)
  else printHelp.

Definition main (argv : list getopt_result) : M Z :=
  r <- option_loop argv initial_locals ;;
  match r with
  | inl code => ret code
  | inr st => dispatch st
  end.

End Util.

Notation "x <- m ;; k" := (bind m (fun x => k))
  (at level 61, m at next level, right associativity).
Notation "m ;; k" := (bind m (fun _ => k))
  (at level 61, right associativity).

(** ** The vocabulary of the properties *)

Section Specification.
Context {lib : SoapySDR}.

(** [sub] occurs in [s]. *)
Definition occurs (sub s : string) : Prop :=
  exists before after, s = before ++ sub ++ after.

(** [key] is a key of the map [m]. *)
Definition is_key {V : Type} (key : string) (m : stdmap V) : Prop :=
  exists v, In (key, v) m.

(** Lexicographic order on strings. *)
Definition lex_le (a b : string) : Prop := String.leb a b = true.

(** The concatenation of the lines [line x], for [x] in [xs]. *)
Definition lines_of {A : Type} (line : A -> string) (xs : list A) : string :=
  String.concat EmptyString (map line xs).

(** The concatenation of the lines [line i x], for [x] in [xs] and [i]
    counting up from [start]. *)
Fixpoint indexed_lines {A : Type} (line : nat -> A -> string) (start : nat)
    (xs : list A) : string :=
  match xs with
  | [] => EmptyString
  | x :: rest => line start x ++ indexed_lines line (S start) rest
  end.

(** A list numbered from [start]: one line [i: s] per element. *)
Definition numbered (start : nat) (xs : list string) : string :=
  indexed_lines (fun i s => dec i ++ ": " ++ s ++ endl) start xs.

(** The full listing of the descriptors, numbered from [start]. *)
Definition full_listing (start : nat) (descriptors : list Kwargs) : string :=
  indexed_lines
    (fun i d =>
       "Found device " ++ dec i ++ endl ++
       lines_of (fun it => "  " ++ fst it ++ " = " ++ snd it ++ endl) d ++
       endl)
    start descriptors.

(** The length of the longest string of a list. *)
Definition longest (xs : list string) : nat :=
  list_max (map String.length xs).

(** The info report, given how an annotated line is padded. *)
Definition search_path_line (pad : string -> string) (e : Env)
    (path : string) : string :=
  "Search path:  " ++ path ++
  (if api_stat_fails path e then pad path ++ " (missing)" else EmptyString) ++
  endl.

Definition module_line (pad : string -> string) (name errMsg version : string)
    : string :=
  "Module found: " ++ name ++
  (if empty errMsg then EmptyString else endl ++ "  " ++ errMsg) ++
  (if empty version then EmptyString
   else pad name ++ " (" ++ version ++ ")") ++
  endl.

(** The modules are loaded one after the other; each line shows the error
    of its load and the version reported after it. *)
Fixpoint module_lines (pad : string -> string) (modules : list string)
    (e : Env) : string * Env :=
  match modules with
  | [] => (EmptyString, e)
  | name :: rest =>
      let (errMsg, e1) := api_loadModule name e in
      let version := api_getModuleVersion name e1 in
      let (text, e2) := module_lines pad rest e1 in
      (module_line pad name errMsg version ++ text, e2)
  end.

(** The load error recorded for each module of the list, in order. *)
Fixpoint load_errors (modules : list string) (e : Env)
    : list (string * string) :=
  match modules with
  | [] => []
  | name :: rest =>
      let (errMsg, e1) := api_loadModule name e in
      (name, errMsg) :: load_errors rest e1
  end.

Definition info_header (e : Env) : string :=
  "Lib Version: v" ++ api_getLibVersion e ++ endl ++
  "API Version: v" ++ api_getAPIVersion e ++ endl ++
  "ABI Version: v" ++ api_getABIVersion e ++ endl ++
  "Install root: " ++ api_getRootPath e ++ endl.

Definition info_footer (modules : list string) (e : Env) : string :=
  (match modules with
   | [] => "No modules found!" ++ endl
   | _ => EmptyString
   end) ++
  "Available factories... " ++
  (let factories := join_names (map fst (api_listFindFunctions e)) in
   if empty factories then "No factories found!" else factories) ++ endl ++
  "Available converters..." ++ endl ++
  lines_of (fun source =>
              " - " ++ setw5 source ++ " -> [" ++
              join_names (api_listTargetFormats source e) ++ "]" ++ endl)
           (api_listAvailableSourceFormats e).

Definition info_report (pad : string -> string) (e : Env) : string :=
  let searchPaths := api_listSearchPaths e in
  let modules := api_listModules e in
  let (text, e') := module_lines pad modules e in
  info_header e ++
  lines_of (search_path_line pad e) searchPaths ++
  text ++
  info_footer modules e'.

(** The workflows [main] chooses among after the option loop. *)
Inductive workflow : Type :=
| wf_check | wf_find | wf_make | wf_probe | wf_rate_test | wf_help.

(** Whether the command line asked for a workflow. *)
Definition requested (st : locals) (wf : workflow) : bool :=
  match wf with
  | wf_check => negb (empty (driverName st))
  | wf_find => findDevicesFlag st
  | wf_make => makeDeviceFlag st
  | wf_probe => probeDeviceFlag st
  | wf_rate_test => double_neq (sampleRate st) double_zero
  | wf_help => true
  end.

(** The fixed priority, highest first; help is the fallback. *)
Definition priority : list workflow :=
  [wf_check; wf_find; wf_make; wf_probe; wf_rate_test].

Definition selected (st : locals) : workflow :=
  hd wf_help (filter (requested st) priority).

Definition run_workflow (st : locals) (wf : workflow) : M Z :=
  match wf with
  | wf_check => checkDriver (driverName st)
  | wf_find => findDevices (argStr st) (sparsePrintFlag st)
  | wf_make => makeDevice (argStr st)
  | wf_probe => probeDevice (argStr st)
  | wf_rate_test =>
      SoapySDRRateTest (argStr st) (sampleRate st) (chanStr st) (dirStr st)
  | wf_help => printHelp
  end.

(** Counting in the call log. *)
Definition is_successful_make (c : call) : bool :=
  match c with call_make _ (Some _) => true | _ => false end.
Definition is_unmake (c : call) : bool :=
  match c with call_unmake _ => true | _ => false end.
Definition is_loadModules (c : call) : bool :=
  match c with call_loadModules => true | _ => false end.
Definition count (p : call -> bool) (log : list call) : nat :=
  List.length (filter p log).

(** A library call that starts a find, make, probe, check or rate-test
    workflow. *)
Definition is_workflow_call (c : call) : bool :=
  match c with
  | call_loadModules | call_enumerate _ | call_make _ _
  | call_rateTest _ _ _ _ => true
  | _ => false
  end.

(** Two option sequences that differ at most in the values given to
    [--args]. *)
Inductive args_variant : list getopt_result -> list getopt_result -> Prop :=
| variant_nil : args_variant [] []
| variant_same g l1 l2 :
    args_variant l1 l2 -> args_variant (g :: l1) (g :: l2)
| variant_args v1 v2 l1 l2 :
    args_variant l1 l2 ->
    args_variant (Getopt "a" (Some v1) :: l1) (Getopt "a" (Some v2) :: l2).

(** [--find], [--make] or [--probe], each of which may carry a value. *)
Definition takes_device_args (c : ascii) : bool :=
  Ascii.eqb c "f" || Ascii.eqb c "m" || Ascii.eqb c "p".

(** [--help] or [--info]. *)
Definition is_early_exit (g : getopt_result) : bool :=
  Ascii.eqb (opt g) "h" || Ascii.eqb (opt g) "i".

(** A [--rate] option whose value [std::stod] rejects. *)
Definition is_bad_rate (g : getopt_result) : bool :=
  Ascii.eqb (opt g) "r" &&
  match optarg g with
  | Some text => negb (is_ok (api_stod text))
  | None => false
  end.

(** Whether the option with value [c] is on the command line. *)
Definition given (c : ascii) (argv : list getopt_result) : bool :=
  existsb (fun g => Ascii.eqb (opt g) c) argv.

(** The variables of [main] with the argument string forgotten, and two
    states (or outcomes of the option loop) that agree on all the rest. *)
Definition without_argStr (st : locals) : locals :=
  Locals EmptyString (chanStr st) (dirStr st) (sampleRate st) (driverName st)
         (findDevicesFlag st) (sparsePrintFlag st) (makeDeviceFlag st)
         (probeDeviceFlag st).

Definition same_but_argStr (st1 st2 : locals) : Prop :=
  without_argStr st1 = without_argStr st2.

Definition outcomes_agree (o1 o2 : result (Z + locals) * world) : Prop :=
  match o1, o2 with
  | (Ok (inr st1), w1), (Ok (inr st2), w2) =>
      w1 = w2 /\ same_but_argStr st1 st2
  | _, _ => o1 = o2
  end.

(** The report of an early flag. *)
Definition early_report (g : getopt_result) : M Z :=
  if Ascii.eqb (opt g) "h" then printHelp else printInfo.

(** The values of [long_options]: what [getopt_long_only] returns for an
    option it recognises. *)
Definition option_values : list ascii :=
  ["h"; "f"; "m"; "i"; "p"; "c"; "s"; "a"; "r"; "n"; "d"]%char.

Definition is_known_option (g : getopt_result) : bool :=
  existsb (Ascii.eqb (opt g)) option_values.

(** The values supplied, in order, to the options whose value is among
    [codes]. *)
Definition supplied (codes : list ascii) (argv : list getopt_result)
    : list string :=
  flat_map
    (fun g =>
       if existsb (Ascii.eqb (opt g)) codes then
         match optarg g with Some v => [v] | None => [] end
       else [])
    argv.

(** An option that asks for no workflow: not [--help], [--info], [--find],
    [--make] or [--probe], no [--check] with a driver name, and no [--rate]
    with a value. *)
Definition requests_nothing (g : getopt_result) : bool :=
  negb (existsb (Ascii.eqb (opt g)) ["h"; "i"; "f"; "m"; "p"]%char) &&
  (if Ascii.eqb (opt g) "c" then
     match optarg g with Some v => empty v | None => true end
   else true) &&
  (if Ascii.eqb (opt g) "r" then
     match optarg g with Some _ => false | None => true end
   else true).

(** The variables of [main] when no workflow has been asked for. *)
Definition idle (st : locals) : Prop :=
  driverName st = EmptyString /\
  findDevicesFlag st = false /\
  makeDeviceFlag st = false /\
  probeDeviceFlag st = false /\
  sampleRate st = double_zero.

(** The rates parsed, in order, from the values supplied to [--rate]. *)
Definition parsed_rates (argv : list getopt_result) : list double :=
  flat_map
    (fun g =>
       if Ascii.eqb (opt g) "r" then
         match optarg g with
         | Some text =>
             match api_stod text with Ok rate => [rate] | Throw _ => [] end
         | None => []
         end
       else [])
    argv.

(** What a descriptor contributes to the sparse listing: a value the map
    binds to the key "label" when it has that key, and the serialization
    of the whole map when it has not. *)
Definition contributes (descriptor : Kwargs) (text : string) : Prop :=
  (is_key "label" descriptor -> In ("label", text) descriptor) /\
  (~ is_key "label" descriptor -> text = api_KwargsToString descriptor).

(** The calls a device workflow can have made. *)
Definition lifecycle_calls (argStr : string) (probed : bool)
    (new : list call) : Prop :=
  new = [call_make argStr None] \/
  exists d,
    let inspected := if probed then [call_probe d] else [] in
    new = (call_make argStr (Some d) :: inspected)%list \/
    new = (call_make argStr (Some d) :: inspected ++ [call_unmake d])%list.

End Specification.

(** ** A test double of the library

    A small implementation of the interface, used to run the workflows on
    concrete inputs.  Devices are numbered handles; [live] counts the
    handles made and not yet released. *)
Module Mock.

Record state : Type := State {
  searchPaths : list string;
  missingPaths : list string;
  (* module path, load error, version *)
  modules : list (string * (string * string));
  loaded : bool;
  (* the factories the modules register when loaded *)
  drivers : list string;
  attached : list Kwargs;
  make_result : result nat;
  driverKey : result string;
  probe_result : result string;
  live : Z
}.

Definition with_loaded (s : state) : state :=
  State (searchPaths s) (missingPaths s) (modules s) true (drivers s)
        (attached s) (make_result s) (driverKey s) (probe_result s) (live s).

Definition with_live (n : Z) (s : state) : state :=
  State (searchPaths s) (missingPaths s) (modules s) (loaded s) (drivers s)
        (attached s) (make_result s) (driverKey s) (probe_result s) n.

Definition module_info (path : string) (s : state) : string * string :=
  match find path (modules s) with
  | Some info => info
  | None => ("no such module", EmptyString)
  end.

Definition is_digit (c : ascii) : bool :=
  let n := nat_of_ascii c in (48 <=? n)%nat && (n <=? 57)%nat.

(** The value of the leading decimal digits of [text], after [acc]. *)
Fixpoint digits (acc : Z) (text : string) : Z :=
  match text with
  | String c rest =>
      if is_digit c then digits (10 * acc + Z.of_nat (nat_of_ascii c - 48)) rest
      else acc
  | EmptyString => acc
  end.

(** [std::stod] on unsigned decimal numerals: the leading digits are
    converted, and text that does not start with a digit is rejected with
    [std::invalid_argument]. *)
Definition stod (text : string) : result Z :=
  match text with
  | String c _ =>
      if is_digit c then Ok (digits 0 text)
      else Throw (std_exception "stod")
  | EmptyString => Throw (std_exception "stod")
  end.

Definition soapy : SoapySDR := {|
  Env := state;
  Device := nat;
  FindFunction := unit;
  double := Z;
  api_getLibVersion := fun _ => "0.7.0";
  api_getAPIVersion := fun _ => "0.7.0";
  api_getABIVersion := fun _ => "0.7";
  api_getRootPath := fun _ => "/usr";
  api_listSearchPaths := searchPaths;
  api_listModules := fun s => map fst (modules s);
  api_loadModule :=
    fun path s =>
      let errMsg := fst (module_info path s) in
      (errMsg, if empty errMsg then with_loaded s else s);
  api_getModuleVersion := fun path s => snd (module_info path s);
  api_loadModules := with_loaded;
  api_listFindFunctions :=
    fun s => if loaded s then map (fun d => (d, tt)) (drivers s) else [];
  api_listAvailableSourceFormats := fun _ => ["CF32"; "CS16"];
  api_listTargetFormats := fun _ _ => ["CF32"; "CS16"];
  api_KwargsToString :=
    fun kw => String.concat ", " (map (fun it => fst it ++ "=" ++ snd it) kw);
  api_enumerate := fun _ s => (attached s, s);
  api_make :=
    fun _ s =>
      (make_result s,
       match make_result s with
       | Ok _ => with_live (live s + 1) s
       | Throw _ => s
       end);
  api_unmake := fun _ s => (Ok tt, with_live (live s - 1) s);
  api_getDriverKey := fun _ s => driverKey s;
  api_getHardwareKey := fun _ _ => Ok "mock";
  api_getHardwareInfo := fun _ _ => Ok [("origin", "test")];
  api_SoapySDRDeviceProbe := fun _ s => (probe_result s, s);
  api_SoapySDRRateTest := fun _ _ _ _ s => (Ok 0, s);
  api_stat_fails := fun path s => existsb (String.eqb path) (missingPaths s);
  api_stod := stod;
  double_zero := 0;
  double_neq := fun a b => negb (Z.eqb a b)
|}.

(** A machine with one search path that does not exist, two modules of
    which the second fails to load, and three attached devices whose
    labels are out of order; the third has no label. *)
Definition bench : state :=
  State ["/usr/lib/SoapySDR/modules0.7"; "/opt/sdr"]
        ["/opt/sdr"]
        [("/usr/lib/SoapySDR/modules0.7/libA.so", (EmptyString, "1.2"));
         ("/opt/sdr/libB.so", ("undefined symbol", "0.1"))]
        false
        ["null"; "rtlsdr"]
        [[("driver", "rtlsdr"); ("label", "zeta")];
         [("driver", "null"); ("label", "alpha")];
         [("driver", "hackrf"); ("serial", "42")]]
        (Ok 7%nat)
        (Ok "mock")
        (Ok "probe text")
        0.

(** The same machine with nothing attached. *)
Definition bare : state :=
  State (searchPaths bench) (missingPaths bench) (modules bench) false
        (drivers bench) [] (Throw (std_exception "no match"))
        (Ok "mock") (Ok "probe text") 0.

(** The same machine with a device that opens and then fails under
    inspection. *)
Definition flaky : state :=
  State (searchPaths bench) (missingPaths bench) (modules bench) false
        (drivers bench) (attached bench) (Ok 7%nat)
        (Throw (std_exception "read timeout"))
        (Throw (std_exception "read timeout")) 0.

(** The machine of [bench] with its devices enumerated in another order. *)
Definition shuffled : state :=
  State (searchPaths bench) (missingPaths bench) (modules bench) false
        (drivers bench)
        [[("driver", "hackrf"); ("serial", "42")];
         [("driver", "rtlsdr"); ("label", "zeta")];
         [("driver", "null"); ("label", "alpha")]]
        (Ok 7%nat) (Ok "mock") (Ok "probe text") 0.

(** The machine of [bench] after its modules have been loaded. *)
Definition ready : state := with_loaded bench.

(** The machine of [bench] with a driver that throws an object which is
    not a [std::exception] when a device is constructed. *)
Definition alien : state :=
  State (searchPaths bench) (missingPaths bench) (modules bench) false
        (drivers bench) (attached bench) (Throw foreign_exception)
        (Ok "mock") (Ok "probe text") 0.

Definition start (s : state) : world (lib := soapy) :=
  World (lib := soapy) s EmptyString EmptyString [].

End Mock.

(** * Properties *)

(** ** Strings and maps *)

Lemma append_assoc (a b c : string) : (a ++ b) ++ c = a ++ (b ++ c).
Proof. induction a as [|x a IH]; simpl; [reflexivity | now rewrite IH]. Qed.

Lemma append_empty_r (a : string) : a ++ EmptyString = a.
Proof. induction a as [|x a IH]; simpl; [reflexivity | now rewrite IH]. Qed.

Lemma find_is_key {V : Type} (key : string) (m : stdmap V) :
  find key m <> None <-> is_key key m.
Proof.
  unfold is_key. induction m as [|[k v] m IH]; simpl.
  - split; [congruence | intros [v []]].
  - destruct (String.eqb_spec k key) as [->|Hne].
    + split; [intros _; exists v; now left | congruence].
    + rewrite IH. split; intros [v' H]; exists v'.
      * now right.
      * destruct H as [H|H]; [congruence | exact H].
Qed.

Lemma lines_of_cons {A : Type} (line : A -> string) (x : A) (xs : list A) :
  lines_of line (x :: xs) = line x ++ lines_of line xs.
Proof.
  unfold lines_of. simpl. destruct (map line xs) eqn:E; simpl.
  - now rewrite append_empty_r.
  - reflexivity.
Qed.

(** ** Running the monad *)

Section Runs.
Context {lib : SoapySDR}.

Lemma world_eta (w : world) :
  World (env w) (cout w) (cerr w) (calls w) = w.
Proof. now destruct w. Qed.

(** A loop whose body only writes to [std::cout] writes the lines of its
    elements. *)
Lemma for_each_writes {A : Type} (body : A -> M unit) (line : Env -> A -> string) :
  (forall x w, body x w =
     (Ok tt, World (env w) (cout w ++ line (env w) x) (cerr w) (calls w))) ->
  forall xs w,
    for_each xs body w =
    (Ok tt, World (env w) (cout w ++ lines_of (line (env w)) xs)
                  (cerr w) (calls w)).
Proof.
  intros Hbody xs. induction xs as [|x xs IH]; intros w.
  - simpl. unfold ret, lines_of. simpl. now rewrite append_empty_r, world_eta.
  - simpl. unfold bind. rewrite Hbody, IH. simpl.
    now rewrite lines_of_cons, append_assoc.
Qed.

Lemma for_index_writes {A : Type} (body : nat -> A -> M unit)
    (line : Env -> nat -> A -> string) :
  (forall i x w, body i x w =
     (Ok tt, World (env w) (cout w ++ line (env w) i x) (cerr w) (calls w))) ->
  forall xs start w,
    for_index start xs body w =
    (Ok tt, World (env w) (cout w ++ indexed_lines (line (env w)) start xs)
                  (cerr w) (calls w)).
Proof.
  intros Hbody xs. induction xs as [|x xs IH]; intros start w.
  - simpl. unfold ret. now rewrite append_empty_r, world_eta.
  - simpl. unfold bind. rewrite Hbody, IH. simpl.
    now rewrite append_assoc.
Qed.

End Runs.

(** Brings concatenations to a normal form. *)
Ltac string_norm :=
  repeat (rewrite ?append_assoc, ?append_empty_r; simpl).

(** Unfolds the straight-line part of a computation. *)
Ltac run :=
  unfold loadModules, loadModule, Device_enumerate, Device_make,
    Device_unmake, SoapySDRDeviceProbe, SoapySDRRateTest, printBanner,
    printHelp, stod;
  unfold bind, ret, when, try_catch, cout_put, cerr_put, read, read_result,
    invoke;
  simpl.

Section Workflows.
Context {lib : SoapySDR}.

(** *** [checkDriver] *)

(** C3. For every driver name, the check workflow makes exactly one
    module-load pass ([loadModules], and no other call with a side effect),
    then consults the factory registry of the environment the pass left
    behind: it exits with code 0 if and only if the name is a key of that
    registry, and with code 1 otherwise. *)
Theorem checkDriver_exit_code (name : string) (w : world) :
  let registry := api_listFindFunctions (api_loadModules (env w)) in
  exists code w',
    checkDriver name w = (Ok code, w') /\
    calls w' = (calls w ++ [call_loadModules])%list /\
    count is_loadModules (calls w') = S (count is_loadModules (calls w)) /\
    env w' = api_loadModules (env w) /\
    (code = EXIT_SUCCESS <-> is_key name registry) /\
    (code = EXIT_FAILURE <-> ~ is_key name registry).
Proof.
  intros registry. unfold checkDriver. run.
  pose proof (find_is_key name registry) as Hkey. fold registry.
  assert (Hcount :
    count is_loadModules (calls w ++ [call_loadModules]) =
    S (count is_loadModules (calls w))).
  { unfold count. rewrite filter_app, length_app. simpl. lia. }
  destruct (find name registry) as [f|] eqn:E; run.
  - eexists _, _. split; [reflexivity|]. simpl.
    split; [reflexivity|]. split; [exact Hcount|]. split; [reflexivity|].
    unfold EXIT_SUCCESS, EXIT_FAILURE. split; split.
    + intros _. apply Hkey. congruence.
    + reflexivity.
    + discriminate.
    + intros Hno. exfalso. apply Hno, Hkey. congruence.
  - eexists _, _. split; [reflexivity|]. simpl.
    assert (Hno : ~ is_key name registry)
      by (intros H; apply Hkey in H; congruence).
    split; [reflexivity|]. split; [exact Hcount|]. split; [reflexivity|].
    unfold EXIT_SUCCESS, EXIT_FAILURE. split; split.
    + discriminate.
    + intros H. contradiction.
    + intros _. exact Hno.
    + reflexivity.
Qed.

End Workflows.

Section Find.
Context {lib : SoapySDR}.

(** *** [findDevices] *)

Lemma push_back_loop {A B : Type} (f : A -> B) (xs : list A) (acc : list B) :
  fold_left (fun v x => (v ++ [f x])%list) xs acc = (acc ++ map f xs)%list.
Proof.
  revert acc. induction xs as [|x xs IH]; intros acc; simpl.
  - now rewrite app_nil_r.
  - rewrite IH, <- app_assoc. reflexivity.
Qed.

(** What a run of [findDevices] leaves behind, in either mode. *)
Lemma findDevices_run (argStr : string) (sparse : bool) (w : world) :
  let results := fst (api_enumerate argStr (env w)) in
  findDevices argStr sparse w =
  (Ok (match results with [] => EXIT_FAILURE | _ => EXIT_SUCCESS end),
   World (snd (api_enumerate argStr (env w)))
     (cout w ++
      (if sparse then numbered 0 (std_sort (map sparse_entry results))
       else full_listing 0 results ++
            match results with [] => EmptyString | _ => endl end))
     (cerr w ++
      (if sparse then EmptyString
       else match results with
            | [] => "No devices found!" ++ endl
            | _ => EmptyString
            end))
     (calls w ++ [call_enumerate argStr])).
Proof.
  unfold findDevices. run.
  destruct (api_enumerate argStr (env w)) as [results e] eqn:E. simpl.
  destruct sparse.
  - rewrite push_back_loop.
    rewrite (for_index_writes _ (fun _ i s => dec i ++ ": " ++ s ++ endl))
      by reflexivity.
    simpl. now rewrite append_empty_r.
  - rewrite (for_index_writes _
               (fun _ i d =>
                  "Found device " ++ dec i ++ endl ++
                  lines_of (fun it => "  " ++ fst it ++ " = " ++ snd it ++ endl) d
                  ++ endl)).
    + destruct results as [|r results]; simpl; string_norm; reflexivity.
    + intros i d w0.
      rewrite (for_each_writes _
                 (fun _ it => "  " ++ fst it ++ " = " ++ snd it ++ endl))
        by reflexivity.
      simpl. string_norm. reflexivity.
Qed.

(** C2, as the code has it. The find workflow exits with code 1 when the
    device list is empty and with code 0 when at least one device is found,
    in sparse and in full mode alike. The message on the error stream for
    an empty list is written in full mode; sparse mode writes nothing to
    the error stream. *)
Theorem findDevices_exit_code (argStr : string) (sparse : bool) (w : world) :
  let results := fst (api_enumerate argStr (env w)) in
  let run := findDevices argStr sparse w in
  match results with
  | [] =>
      fst run = Ok EXIT_FAILURE /\
      cerr (snd run) =
        cerr w ++ (if sparse then EmptyString else "No devices found!" ++ endl)
  | _ :: _ =>
      fst run = Ok EXIT_SUCCESS /\ cerr (snd run) = cerr w
  end.
Proof.
  intros results run0. subst run0. rewrite findDevices_run. fold results.
  destruct results; simpl; split; try reflexivity.
  destruct sparse; apply append_empty_r.
Qed.

Lemma find_some_in {V : Type} (key : string) (m : stdmap V) (v : V) :
  find key m = Some v -> In (key, v) m.
Proof.
  induction m as [|[k v'] m IH]; simpl; [discriminate|].
  destruct (String.eqb_spec k key) as [->|_].
  - intros [= ->]. now left.
  - intros H. right. now apply IH.
Qed.

(** The code's choice for a descriptor is what the descriptor contributes. *)
Lemma sparse_entry_contributes (d : Kwargs) : contributes d (sparse_entry d).
Proof.
  unfold contributes, sparse_entry.
  pose proof (find_is_key "label" d) as Hkey.
  destruct (find "label" d) as [label|] eqn:Hfind.
  - split.
    + intros _. now apply find_some_in.
    + intros Hno. exfalso. apply Hno, Hkey. discriminate.
  - split.
    + intros Hyes. apply Hkey in Hyes. contradiction.
    + reflexivity.
Qed.

(** C6. In sparse mode each descriptor contributes its label when it has
    one and its serialization otherwise; these strings are printed in
    lexicographic order (the printed list is a sorted rearrangement of the
    contributions), numbered from zero. In full mode the descriptors are
    printed in the order of the enumeration. *)
Theorem findDevices_listing (argStr : string) (w : world) :
  let results := fst (api_enumerate argStr (env w)) in
  (exists contributions sorted,
      contributions = map sparse_entry results /\
      Forall2 contributes results contributions /\
      Permutation contributions sorted /\
      Sorted lex_le sorted /\
      cout (snd (findDevices argStr true w)) = cout w ++ numbered 0 sorted) /\
  cout (snd (findDevices argStr false w)) =
    cout w ++ full_listing 0 results ++
    match results with [] => EmptyString | _ => endl end.
Proof.
  intros results. rewrite !findDevices_run. fold results. simpl. split.
  - exists (map sparse_entry results), (std_sort (map sparse_entry results)).
    split; [reflexivity|]. split; [|split; [|split]].
    + induction results as [|d results IH]; simpl; constructor.
      * apply sparse_entry_contributes.
      * exact IH.
    + apply StringSort.Permuted_sort.
    + apply StringSort.Sorted_sort.
    + reflexivity.
  - reflexivity.
Qed.

End Find.

Section Lifecycle.
Context {lib : SoapySDR}.

(** *** [makeDevice] and [probeDevice] *)

(** C5, as the code has it. When the construction of the device throws
    an exception derived from [std::exception], the make workflow catches
    it: it writes the message to the error stream and returns the failure
    exit code; nothing is thrown out of the workflow. *)
Theorem makeDevice_construction_error
    (argStr what : string) (w : world) (e' : Env) :
  api_make argStr (env w) = (Throw (std_exception what), e') ->
  makeDevice argStr w =
  (Ok EXIT_FAILURE,
   World e'
     (cout w ++ "Make device " ++ argStr ++ endl)
     (cerr w ++ "Error making device: " ++ what ++ endl)
     (calls w ++ [call_make argStr None])).
Proof.
  intros Hmake. unfold makeDevice. run. rewrite Hmake. reflexivity.
Qed.

(** X3. The probe workflow has the same contract as the make workflow:
    when the construction of the device throws a [std::exception], the
    message is written to the error stream after [Error probing device: ],
    the exit code is 1, and no probe or release is attempted. *)
Lemma probeDevice_construction_error
    (argStr what : string) (w : world) (e' : Env) :
  api_make argStr (env w) = (Throw (std_exception what), e') ->
  probeDevice argStr w =
  (Ok EXIT_FAILURE,
   World e'
     (cout w ++ "Probe device " ++ argStr ++ endl)
     (cerr w ++ "Error probing device: " ++ what ++ endl)
     (calls w ++ [call_make argStr None])).
Proof.
  intros Hmake. unfold probeDevice. run. rewrite Hmake. reflexivity.
Qed.

(** X1. When construction, probe and release all succeed, the probe
    workflow prints the header, the probe text and a blank line, leaves
    the error stream alone, releases the handle once, after the probe, and
    returns the exit code 0. *)
Lemma probeDevice_success
    (argStr text : string) (w : world) (d : Device) (e1 e2 e3 : Env) :
  api_make argStr (env w) = (Ok d, e1) ->
  api_SoapySDRDeviceProbe d e1 = (Ok text, e2) ->
  api_unmake d e2 = (Ok tt, e3) ->
  probeDevice argStr w =
  (Ok EXIT_SUCCESS,
   World e3
     (cout w ++ "Probe device " ++ argStr ++ endl ++ text ++ endl ++ endl)
     (cerr w)
     (calls w ++ [call_make argStr (Some d); call_probe d; call_unmake d])).
Proof.
  intros Hmake Hprobe Hunmake. unfold probeDevice. run.
  rewrite Hmake. simpl. rewrite Hprobe. simpl. rewrite Hunmake. simpl.
  string_norm. rewrite <- !app_assoc. reflexivity.
Qed.

(** X2. When every step of the make workflow succeeds, it prints the
    driver key, the hardware key and one line per pair of the hardware
    info, releases the handle once, after the inspection, and returns the
    exit code 0. *)
Lemma makeDevice_success
    (argStr driver hardware : string) (info : Kwargs) (w : world)
    (d : Device) (e1 e2 : Env) :
  api_make argStr (env w) = (Ok d, e1) ->
  api_getDriverKey d e1 = Ok driver ->
  api_getHardwareKey d e1 = Ok hardware ->
  api_getHardwareInfo d e1 = Ok info ->
  api_unmake d e1 = (Ok tt, e2) ->
  makeDevice argStr w =
  (Ok EXIT_SUCCESS,
   World e2
     (cout w ++ "Make device " ++ argStr ++ endl ++
      "  driver=" ++ driver ++ endl ++
      "  hardware=" ++ hardware ++ endl ++
      lines_of (fun it => "  " ++ fst it ++ "=" ++ snd it ++ endl) info ++
      endl)
     (cerr w)
     (calls w ++ [call_make argStr (Some d); call_unmake d])).
Proof.
  intros Hmake Hdriver Hhardware Hinfo Hunmake. unfold makeDevice.
  unfold bind at 1. unfold cout_put at 1. unfold bind at 1.
  unfold try_catch. unfold bind at 1. unfold Device_make, invoke.
  cbn [env cout cerr calls]. rewrite Hmake.
  unfold bind at 1. unfold cout_put at 1. cbn [env cout cerr calls].
  unfold bind at 1. unfold read_result at 1. cbn [env]. rewrite Hdriver.
  unfold bind at 1 2. unfold cout_put at 1 2. cbn [env cout cerr calls].
  unfold bind at 1. unfold read_result at 1. cbn [env]. rewrite Hhardware.
  unfold bind at 1. unfold cout_put at 1. cbn [env cout cerr calls].
  unfold bind at 1. unfold read_result at 1. cbn [env]. rewrite Hinfo.
  unfold bind at 1.
  rewrite (for_each_writes _
             (fun _ it => "  " ++ fst it ++ "=" ++ snd it ++ endl))
    by reflexivity.
  cbn [env cout cerr calls].
  unfold bind at 1. unfold Device_unmake, invoke. cbn [env cout cerr calls].
  rewrite Hunmake. unfold ret, bind, cout_put. cbn [env cout cerr calls].
  rewrite <- !app_assoc. repeat rewrite append_assoc. reflexivity.
Qed.

(** X10. When the probe of a constructed device throws a
    [std::exception], the probe workflow writes its message to the error
    stream after [Error probing device: ] and returns the exit code 1; the
    handler returns without releasing the handle, so the log ends with the
    probe. *)
Lemma probeDevice_probe_error
    (argStr what : string) (w : world) (d : Device) (e1 e2 : Env) :
  api_make argStr (env w) = (Ok d, e1) ->
  api_SoapySDRDeviceProbe d e1 = (Throw (std_exception what), e2) ->
  probeDevice argStr w =
  (Ok EXIT_FAILURE,
   World e2
     (cout w ++ "Probe device " ++ argStr ++ endl)
     (cerr w ++ "Error probing device: " ++ what ++ endl)
     (calls w ++ [call_make argStr (Some d); call_probe d])).
Proof.
  intros Hmake Hprobe. unfold probeDevice. run.
  rewrite Hmake. simpl. rewrite Hprobe. simpl.
  rewrite <- !app_assoc. reflexivity.
Qed.

(** Likewise in the make workflow, when the first inspection step throws. *)
Lemma makeDevice_inspection_error
    (argStr what : string) (w : world) (d : Device) (e1 : Env) :
  api_make argStr (env w) = (Ok d, e1) ->
  api_getDriverKey d e1 = Throw (std_exception what) ->
  makeDevice argStr w =
  (Ok EXIT_FAILURE,
   World e1
     (cout w ++ "Make device " ++ argStr ++ endl ++ "  driver=")
     (cerr w ++ "Error making device: " ++ what ++ endl)
     (calls w ++ [call_make argStr (Some d)])).
Proof.
  intros Hmake Hkey. unfold makeDevice. run.
  rewrite Hmake. simpl. rewrite Hkey. simpl.
  string_norm. reflexivity.
Qed.

End Lifecycle.

(** C1, at a device that opens and then fails under inspection. Both
    workflows make the device, report the error and return the failure
    exit code, and neither releases the handle: one successful make and no
    unmake are logged, and the library is left with one live handle. *)
Theorem device_handle_not_released_after_error :
  let probe := probeDevice (lib := Mock.soapy) "" (Mock.start Mock.flaky) in
  let make := makeDevice (lib := Mock.soapy) "" (Mock.start Mock.flaky) in
  (fst probe = Ok EXIT_FAILURE /\
   calls (snd probe) = [call_make (lib := Mock.soapy) "" (Some 7%nat); call_probe (lib := Mock.soapy) 7%nat] /\
   count is_successful_make (calls (snd probe)) = 1%nat /\
   count is_unmake (calls (snd probe)) = 0%nat /\
   Mock.live (env (snd probe)) = 1) /\
  (fst make = Ok EXIT_FAILURE /\
   calls (snd make) = [call_make (lib := Mock.soapy) "" (Some 7%nat)] /\
   count is_successful_make (calls (snd make)) = 1%nat /\
   count is_unmake (calls (snd make)) = 0%nat /\
   Mock.live (env (snd make)) = 1).
Proof.
  intros probe make.
  split; (split; [|split; [|split; [|split]]]); vm_compute; reflexivity.
Qed.

(** C5 at a machine where no device matches. *)
Lemma makeDevice_construction_error_witness :
  makeDevice (lib := Mock.soapy) "driver=x" (Mock.start Mock.bare) =
  (Ok EXIT_FAILURE,
   World (lib := Mock.soapy) Mock.bare
     ("Make device driver=x" ++ endl)
     ("Error making device: no match" ++ endl)
     [call_make (lib := Mock.soapy) "driver=x" None]).
Proof.
  apply (makeDevice_construction_error (lib := Mock.soapy)
           "driver=x" "no match" (Mock.start Mock.bare) Mock.bare).
  reflexivity.
Defined.

(** C2 as stated fails in sparse mode: with nothing attached the workflow
    exits with code 1 and leaves the error stream as it was. *)
Lemma findDevices_sparse_prints_no_error :
  let run := findDevices (lib := Mock.soapy) "" true (Mock.start Mock.bare) in
  fst (api_enumerate (SoapySDR := Mock.soapy) "" Mock.bare) = [] /\
  fst run = Ok EXIT_FAILURE /\
  cerr (snd run) = EmptyString /\
  ~ (exists message,
        message <> EmptyString /\
        cerr (snd run) = cerr (Mock.start Mock.bare) ++ message).
Proof.
  vm_compute. repeat split. intros [message [Hne Heq]].
  destruct message; [now apply Hne | discriminate].
Qed.

Section Info.
Context {lib : SoapySDR}.

(** *** [printInfo] *)

Lemma occurs_in_context (sub s before after : string) :
  occurs sub s -> occurs sub (before ++ s ++ after).
Proof.
  intros [b [a ->]]. exists (before ++ b), (a ++ after).
  now rewrite !append_assoc.
Qed.

(** The loop over the modules, for any body that behaves as the one of
    [printInfo]. *)
Lemma module_loop (pad : string -> string) (body : string -> M unit) :
  (forall name w,
      body name w =
      let (errMsg, e1) := api_loadModule name (env w) in
      (Ok tt,
       World e1
         (cout w ++ module_line pad name errMsg (api_getModuleVersion name e1))
         (cerr w)
         (calls w ++ [call_loadModule name]))) ->
  forall modules w,
    for_each modules body w =
    (Ok tt,
     World (snd (module_lines pad modules (env w)))
       (cout w ++ fst (module_lines pad modules (env w)))
       (cerr w)
       (calls w ++ map call_loadModule modules)).
Proof.
  intros Hbody modules. induction modules as [|name modules IH]; intros w.
  - simpl. unfold ret. now rewrite append_empty_r, app_nil_r, world_eta.
  - simpl. unfold bind. rewrite Hbody.
    destruct (api_loadModule name (env w)) as [errMsg e1].
    rewrite IH. simpl.
    destruct (module_lines pad modules e1) as [text e2]. simpl.
    now rewrite append_assoc, <- app_assoc.
Qed.

(** What a run of [printInfo] leaves behind. *)
Lemma printInfo_run (w : world) :
  let searchPaths := api_listSearchPaths (env w) in
  let modules := api_listModules (env w) in
  let maxPathLen := max_size (max_size 0 searchPaths) modules in
  printInfo w =
  (Ok EXIT_SUCCESS,
   World (snd (module_lines (padding maxPathLen) modules (env w)))
     (cout w ++ info_report (padding maxPathLen) (env w))
     (cerr w)
     (calls w ++ map call_loadModule modules)).
Proof.
  intros searchPaths modules maxPathLen.
  unfold printInfo.
  unfold bind at 1 2 3 4 5 6 7 8 9 10. unfold read at 1 2 3 4 5 6.
  unfold cout_put at 1 2 3 4. cbv beta iota zeta. cbn [env cout cerr calls].
  fold searchPaths modules maxPathLen.
  unfold bind at 1.
  rewrite (for_each_writes _ (search_path_line (padding maxPathLen))).
  2:{ intros path w0. unfold search_path_line. run.
      destruct (api_stat_fails path (env w0)); simpl; string_norm;
        reflexivity. }
  cbn [env cout cerr calls].
  unfold bind at 1.
  rewrite (module_loop (padding maxPathLen)).
  2:{ intros name w0. unfold module_line. run.
      destruct (api_loadModule name (env w0)) as [errMsg e1]. simpl.
      destruct (empty errMsg); simpl;
        destruct (empty (api_getModuleVersion name e1)); simpl;
        string_norm; reflexivity. }
  cbn [env cout cerr calls].
  unfold info_report. fold searchPaths modules.
  destruct (module_lines (padding maxPathLen) modules (env w)) as [text e'].
  cbn [fst snd].
  unfold bind at 1 2 3 4 5 6.
  unfold when, cout_put at 2 3 4, read at 1 2. cbv beta iota zeta.
  assert (Hfirst :
    forall w0 : world,
      (if match modules with [] => true | _ :: _ => false end
       then cout_put ("No modules found!" ++ endl) else ret tt) w0 =
      (Ok tt,
       World (env w0)
         (cout w0 ++ match modules with
                     | [] => "No modules found!" ++ endl
                     | _ => EmptyString
                     end)
         (cerr w0) (calls w0))).
  { intros w0. destruct modules; run; [reflexivity|].
    now rewrite append_empty_r, world_eta. }
  rewrite Hfirst. cbn [env cout cerr calls].
  unfold bind at 1.
  rewrite (for_each_writes _
             (fun e source =>
                " - " ++ setw5 source ++ " -> [" ++
                join_names (api_listTargetFormats source e) ++ "]" ++ endl)).
  2:{ intros source w0. run. reflexivity. }
  cbn [env cout cerr calls]. unfold ret, info_header, info_footer.
  repeat rewrite append_assoc. reflexivity.
Qed.

End Info.

Section InfoClaims.
Context {lib : SoapySDR}.

Lemma max_size_longest (xs : list string) (n : nat) :
  max_size (Z.of_nat n) xs = Z.of_nat (Nat.max n (longest xs)).
Proof.
  unfold max_size, longest. revert n.
  induction xs as [|s xs IH]; intros n; simpl.
  - now rewrite Nat.max_0_r.
  - unfold size. rewrite <- Nat2Z.inj_max, IH. f_equal. lia.
Qed.

Lemma longest_app (xs ys : list string) :
  longest (xs ++ ys) = Nat.max (longest xs) (longest ys).
Proof. unfold longest. now rewrite map_app, list_max_app. Qed.

Lemma maxPathLen_longest (searchPaths modules : list string) :
  max_size (max_size 0 searchPaths) modules =
  Z.of_nat (longest (searchPaths ++ modules)%list).
Proof.
  change 0 with (Z.of_nat 0). rewrite !max_size_longest, longest_app.
  reflexivity.
Qed.

Lemma longest_bounds (xs : list string) (s : string) :
  In s xs -> (String.length s <= longest xs)%nat.
Proof.
  intros Hin. unfold longest.
  assert (H : Forall (fun k => (k <= list_max (map String.length xs))%nat)
                     (map String.length xs))
    by now apply list_max_le.
  rewrite Forall_forall in H. apply H, in_map, Hin.
Qed.

Lemma longest_fits (xs : list string) :
  Forall (fun s => size s < 2 ^ SIZE_WIDTH) xs ->
  Z.of_nat (longest xs) < 2 ^ SIZE_WIDTH.
Proof.
  unfold longest, size. induction 1 as [|s xs Hs _ IH]; simpl.
  - reflexivity.
  - rewrite Nat2Z.inj_max. now apply Z.max_lub_lt.
Qed.

(** Without wrap-around the padding is the difference of the lengths. *)
Lemma padding_spaces (xs : list string) (s : string) :
  Forall (fun s => size s < 2 ^ SIZE_WIDTH) xs ->
  In s xs ->
  padding (Z.of_nat (longest xs)) s = spaces (longest xs - String.length s).
Proof.
  intros Hfit Hin. unfold padding, size_t_sub, size. f_equal.
  pose proof (longest_bounds xs s Hin) as Hle.
  pose proof (longest_fits xs Hfit) as Hlt.
  rewrite Z.mod_small by lia. lia.
Qed.

Lemma lines_of_ext {A : Type} (f g : A -> string) (xs : list A) :
  (forall x, In x xs -> f x = g x) -> lines_of f xs = lines_of g xs.
Proof. intros H. unfold lines_of. f_equal. now apply map_ext_in. Qed.

Lemma module_lines_ext (pad1 pad2 : string -> string) (modules : list string) :
  (forall s, In s modules -> pad1 s = pad2 s) ->
  forall e, module_lines pad1 modules e = module_lines pad2 modules e.
Proof.
  induction modules as [|name modules IH]; intros Hpad e; simpl.
  - reflexivity.
  - destruct (api_loadModule name e) as [errMsg e1].
    rewrite IH by (intros s Hs; apply Hpad; now right).
    unfold module_line. rewrite (Hpad name) by now left. reflexivity.
Qed.

Lemma info_report_ext (pad1 pad2 : string -> string) (e : Env) :
  (forall s, In s (api_listSearchPaths e ++ api_listModules e)%list ->
             pad1 s = pad2 s) ->
  info_report pad1 e = info_report pad2 e.
Proof.
  intros Hpad. unfold info_report.
  rewrite (module_lines_ext pad1 pad2)
    by (intros s Hs; apply Hpad, in_or_app; now right).
  rewrite (lines_of_ext (search_path_line pad1 e) (search_path_line pad2 e)).
  - reflexivity.
  - intros s Hs. unfold search_path_line.
    rewrite (Hpad s) by (apply in_or_app; now left). reflexivity.
Qed.

Lemma load_errors_names (modules : list string) (e : Env) :
  map fst (load_errors modules e) = modules.
Proof.
  revert e. induction modules as [|name modules IH]; intros e; simpl.
  - reflexivity.
  - destruct (api_loadModule name e) as [errMsg e1]. simpl. now rewrite IH.
Qed.

(** The line of every module, with its load error, is in the text of the
    module loop. *)
Lemma module_lines_show_errors (pad : string -> string)
    (modules : list string) (e : Env) :
  Forall
    (fun entry =>
       occurs ("Module found: " ++ fst entry ++
               (if empty (snd entry) then EmptyString
                else endl ++ "  " ++ snd entry))
              (fst (module_lines pad modules e)))
    (load_errors modules e).
Proof.
  revert e. induction modules as [|name modules IH]; intros e; simpl.
  - constructor.
  - destruct (api_loadModule name e) as [errMsg e1].
    specialize (IH e1).
    destruct (module_lines pad modules e1) as [text e2]. simpl in *.
    constructor.
    + simpl. unfold module_line.
      exists EmptyString,
        ((if empty (api_getModuleVersion name e1) then EmptyString
          else pad name ++ " (" ++ api_getModuleVersion name e1 ++ ")")
         ++ endl ++ text).
      simpl. string_norm. reflexivity.
    + eapply Forall_impl; [|exact IH]. intros entry Hocc.
      apply (occurs_in_context _ _ (module_line pad name errMsg
               (api_getModuleVersion name e1)) EmptyString) in Hocc.
      now rewrite append_empty_r in Hocc.
Qed.

(** C8. Whatever the modules report when they are loaded, the info
    workflow returns the exit code 0 without throwing; it has loaded every
    module of the list, in order (the scan goes on after an error); and the
    report shows the line of every module with the error message of its
    load, when there is one, right under its name. *)
Theorem printInfo_tolerates_load_errors (w : world) :
  let modules := api_listModules (env w) in
  let recorded := load_errors modules (env w) in
  let run := printInfo w in
  fst run = Ok EXIT_SUCCESS /\
  calls (snd run) = (calls w ++ map call_loadModule modules)%list /\
  map fst recorded = modules /\
  Forall
    (fun entry =>
       occurs ("Module found: " ++ fst entry ++
               (if empty (snd entry) then EmptyString
                else endl ++ "  " ++ snd entry))
              (cout (snd run)))
    recorded.
Proof.
  intros modules recorded run0. subst run0. rewrite printInfo_run.
  cbn [fst snd calls cout]. fold modules.
  split; [reflexivity|]. split; [reflexivity|].
  split; [apply load_errors_names|].
  set (pad := padding _).
  pose proof (module_lines_show_errors pad modules (env w)) as Hshown.
  fold recorded in Hshown.
  eapply Forall_impl; [|exact Hshown]. intros entry Hocc.
  unfold info_report. fold modules.
  destruct (module_lines pad modules (env w)) as [text e'].
  cbn [fst] in Hocc.
  generalize (info_footer modules e'). intros footer.
  apply (occurs_in_context _ _
           (info_header (env w) ++
            lines_of (search_path_line pad (env w))
                     (api_listSearchPaths (env w)))
           footer) in Hocc.
  destruct Hocc as [b [a Heq]]. exists (cout w ++ b), a.
  rewrite append_assoc in Heq. rewrite Heq.
  now rewrite (append_assoc (cout w) b).
Qed.

(** C9. In the info report every annotated line, of a search path and of
    a module alike, is padded with as many spaces as its string is shorter
    than the longest string of the search paths and the modules taken
    together. (The lengths of strings fit [size_t].) *)
Theorem printInfo_alignment (w : world) :
  let searchPaths := api_listSearchPaths (env w) in
  let modules := api_listModules (env w) in
  let width := longest (searchPaths ++ modules)%list in
  Forall (fun s => size s < 2 ^ SIZE_WIDTH) (searchPaths ++ modules)%list ->
  cout (snd (printInfo w)) =
  cout w ++ info_report (fun s => spaces (width - String.length s)) (env w).
Proof.
  intros searchPaths modules width Hfit. rewrite printInfo_run.
  cbn [snd cout]. f_equal. apply info_report_ext. intros s Hs.
  fold searchPaths modules in Hs |- *.
  rewrite maxPathLen_longest. now apply padding_spaces.
Qed.

End InfoClaims.

(** C9 at the test machine: the longest string has 36 characters. *)
Lemma printInfo_alignment_witness :
  cout (snd (printInfo (lib := Mock.soapy) (Mock.start Mock.bench))) =
  info_report (lib := Mock.soapy)
    (fun s => spaces (36 - String.length s)) Mock.bench.
Proof.
  apply (printInfo_alignment (lib := Mock.soapy) (Mock.start Mock.bench)).
  repeat constructor.
Defined.

(** Splits the [switch] of [handle_option] into its cases. *)
Ltac switch_cases :=
  repeat match goal with
         | |- context [Ascii.eqb ?c ?x] => destruct (Ascii.eqb c x) eqn:?
         end.

Section Main.
Context {lib : SoapySDR}.

(** *** [main] *)

Lemma dispatch_selected (st : locals) :
  dispatch st =
  (when (negb (sparsePrintFlag st)) printBanner ;;
   run_workflow st (selected st)).
Proof.
  unfold dispatch, selected, priority, requested. simpl.
  destruct (negb (empty (driverName st))); [reflexivity|].
  destruct (findDevicesFlag st); [reflexivity|].
  destruct (makeDeviceFlag st); [reflexivity|].
  destruct (probeDeviceFlag st); [reflexivity|].
  destruct (double_neq (sampleRate st) double_zero); reflexivity.
Qed.

(** The flags record which options the loop has seen. *)
Lemma handle_option_flags
    (g : getopt_result) (st st' : locals) (w w' : world) :
  handle_option g st w = (Ok (inr st'), w') ->
  findDevicesFlag st' = findDevicesFlag st || Ascii.eqb (opt g) "f" /\
  makeDeviceFlag st' = makeDeviceFlag st || Ascii.eqb (opt g) "m" /\
  probeDeviceFlag st' = probeDeviceFlag st || Ascii.eqb (opt g) "p" /\
  sparsePrintFlag st' = sparsePrintFlag st || Ascii.eqb (opt g) "s".
Proof.
  unfold handle_option. destruct g as [c arg]. simpl.
  destruct (Ascii.eqb_spec c "h") as [->|_]; [run; discriminate|].
  destruct (Ascii.eqb_spec c "i") as [->|_].
  { unfold bind. unfold printBanner, cerr_put, ret.
    destruct (printInfo _) as [[code|e] w0]; discriminate. }
  destruct (Ascii.eqb_spec c "f") as [->|_];
    [run; intros [= <- _]; simpl; now rewrite !orb_false_r, orb_true_r|].
  destruct (Ascii.eqb_spec c "m") as [->|_];
    [run; intros [= <- _]; simpl; now rewrite !orb_false_r, orb_true_r|].
  destruct (Ascii.eqb_spec c "p") as [->|_];
    [run; intros [= <- _]; simpl; now rewrite !orb_false_r, orb_true_r|].
  destruct (Ascii.eqb_spec c "c") as [->|_];
    [run; intros [= <- _]; simpl; now rewrite !orb_false_r|].
  destruct (Ascii.eqb_spec c "s") as [->|_];
    [run; intros [= <- _]; simpl; now rewrite !orb_false_r, orb_true_r|].
  destruct (Ascii.eqb_spec c "a") as [->|_];
    [run; intros [= <- _]; simpl; now rewrite !orb_false_r|].
  destruct (Ascii.eqb_spec c "r") as [->|_].
  { destruct arg as [text|]; run.
    - destruct (api_stod text); [|discriminate].
      intros [= <- _]; simpl; now rewrite !orb_false_r.
    - intros [= <- _]; simpl; now rewrite !orb_false_r. }
  destruct (Ascii.eqb_spec c "n") as [->|_];
    [run; intros [= <- _]; simpl; now rewrite !orb_false_r|].
  destruct (Ascii.eqb_spec c "d") as [->|_];
    [run; intros [= <- _]; simpl; now rewrite !orb_false_r|].
  run. intros [= <- _]. now rewrite !orb_false_r.
Qed.

Lemma option_loop_flags (argv : list getopt_result) :
  forall st st' w w',
    option_loop argv st w = (Ok (inr st'), w') ->
    findDevicesFlag st' = findDevicesFlag st || given "f" argv /\
    makeDeviceFlag st' = makeDeviceFlag st || given "m" argv /\
    probeDeviceFlag st' = probeDeviceFlag st || given "p" argv /\
    sparsePrintFlag st' = sparsePrintFlag st || given "s" argv.
Proof.
  unfold given.
  induction argv as [|g argv IH]; intros st st' w w'; simpl.
  - unfold ret. intros [= <- _]. now rewrite !orb_false_r.
  - unfold bind.
    destruct (handle_option g st w) as [[[code|st1]|e] w1] eqn:Hstep;
      try discriminate.
    intros Hrest.
    apply handle_option_flags in Hstep as (Hf & Hm & Hp & Hs).
    apply IH in Hrest as (Hf' & Hm' & Hp' & Hs').
    rewrite Hf', Hm', Hp', Hs', Hf, Hm, Hp, Hs, !orb_assoc.
    repeat split; reflexivity.
Qed.

(** Once the option loop has run through the command line and left the
    variables [st], [main] prints the banner (unless sparse) and runs the
    one workflow selected from [st]. *)
Lemma main_after_loop
    (argv : list getopt_result) (w w' : world) (st : locals) :
  option_loop argv initial_locals w = (Ok (inr st), w') ->
  main argv w =
    (when (negb (sparsePrintFlag st)) printBanner ;;
     run_workflow st (selected st)) w'.
Proof.
  intros Hloop. unfold main. unfold bind at 1. rewrite Hloop.
  now rewrite dispatch_selected.
Qed.

Lemma option_loop_app (l1 l2 : list getopt_result) (st : locals) (w : world) :
  option_loop (l1 ++ l2) st w =
  match option_loop l1 st w with
  | (Ok (inr st'), w') => option_loop l2 st' w'
  | other => other
  end.
Proof.
  revert st w. induction l1 as [|g l1 IH]; intros st w; simpl.
  - reflexivity.
  - unfold bind.
    destruct (handle_option g st w) as [[[code|st']|e] w']; try reflexivity.
    apply IH.
Qed.

Lemma outcomes_agree_refl (o : result (Z + locals) * world) :
  outcomes_agree o o.
Proof.
  destruct o as [[[code|st]|e] w]; simpl; try reflexivity.
  split; reflexivity.
Qed.

Lemma handle_option_agree (g : getopt_result) (st1 st2 : locals) (w : world) :
  same_but_argStr st1 st2 ->
  outcomes_agree (handle_option g st1 w) (handle_option g st2 w).
Proof.
  unfold same_but_argStr, without_argStr. intros Hsame.
  injection Hsame as Hchan Hdir Hrate Hname Hfind Hsparse Hmake Hprobe.
  unfold handle_option. destruct g as [c arg]. simpl.
  switch_cases; try apply outcomes_agree_refl;
    try (run; unfold same_but_argStr, without_argStr; simpl;
         split; [reflexivity | congruence]).
  destruct arg as [text|]; run.
  - destruct (api_stod text) as [rate|e]; simpl; [|reflexivity].
    unfold same_but_argStr, without_argStr; simpl.
    split; [reflexivity | congruence].
  - unfold same_but_argStr, without_argStr.
    split; [reflexivity | congruence].
Qed.

Lemma handle_args_agree (v1 v2 : string) (st1 st2 : locals) (w : world) :
  same_but_argStr st1 st2 ->
  outcomes_agree (handle_option (Getopt "a" (Some v1)) st1 w)
                 (handle_option (Getopt "a" (Some v2)) st2 w).
Proof.
  unfold same_but_argStr, without_argStr. intros Hsame.
  injection Hsame as Hchan Hdir Hrate Hname Hfind Hsparse Hmake Hprobe.
  unfold handle_option. simpl. run.
  unfold same_but_argStr, without_argStr; simpl.
  split; [reflexivity | congruence].
Qed.

Lemma option_loop_agree (l1 l2 : list getopt_result) :
  args_variant l1 l2 ->
  forall st1 st2 w,
    same_but_argStr st1 st2 ->
    outcomes_agree (option_loop l1 st1 w) (option_loop l2 st2 w).
Proof.
  induction 1 as [|g l1 l2 _ IH|v1 v2 l1 l2 _ IH]; intros st1 st2 w Hsame.
  - simpl. unfold ret. simpl. split; [reflexivity | exact Hsame].
  - simpl. unfold bind.
    pose proof (handle_option_agree g st1 st2 w Hsame) as Hstep.
    destruct (handle_option g st1 w) as [[[code1|st1']|e1] w1];
      destruct (handle_option g st2 w) as [[[code2|st2']|e2] w2];
      simpl in Hstep; try discriminate;
      try (inversion Hstep; subst; apply outcomes_agree_refl).
    destruct Hstep as [-> Hsame']. now apply IH.
  - simpl. unfold bind.
    pose proof (handle_args_agree v1 v2 st1 st2 w Hsame) as Hstep.
    destruct (handle_option (Getopt "a" (Some v1)) st1 w)
      as [[[code1|st1']|e1] w1];
      destruct (handle_option (Getopt "a" (Some v2)) st2 w)
        as [[[code2|st2']|e2] w2];
      simpl in Hstep; try discriminate;
      try (inversion Hstep; subst; apply outcomes_agree_refl).
    destruct Hstep as [-> Hsame']. now apply IH.
Qed.

(** A find, make or probe option with a value of its own sets the
    argument string, whatever it was. *)
Lemma handle_device_args (c : ascii) (v : string) (st1 st2 : locals) (w : world) :
  takes_device_args c = true ->
  same_but_argStr st1 st2 ->
  handle_option (Getopt c (Some v)) st1 w =
  handle_option (Getopt c (Some v)) st2 w.
Proof.
  unfold takes_device_args, same_but_argStr, without_argStr.
  intros Hc Hsame.
  injection Hsame as Hchan Hdir Hrate Hname Hfind Hsparse Hmake Hprobe.
  unfold handle_option. simpl.
  destruct (Ascii.eqb_spec c "h") as [->|_]; [discriminate|].
  destruct (Ascii.eqb_spec c "i") as [->|_]; [discriminate|].
  destruct (Ascii.eqb c "f"); [run; congruence|].
  destruct (Ascii.eqb c "m"); [run; congruence|].
  destruct (Ascii.eqb c "p"); [run; congruence|].
  discriminate.
Qed.

(** C7, as the code has it. Two command lines that differ only in values
    given to [--args] behave alike, in the find, make and probe workflows
    as in every other, when those [--args] options are followed by a
    [--find], [--make] or [--probe] option with a value of its own, which
    overrides the argument string. *)
Theorem args_value_overridden
    (before1 before2 rest : list getopt_result) (c : ascii) (v : string)
    (w : world) :
  args_variant before1 before2 ->
  takes_device_args c = true ->
  main (before1 ++ Getopt c (Some v) :: rest) w =
  main (before2 ++ Getopt c (Some v) :: rest) w.
Proof.
  intros Hvariant Hc. unfold main. unfold bind at 1 2.
  rewrite !option_loop_app.
  assert (Hinit : same_but_argStr initial_locals initial_locals) by reflexivity.
  pose proof (option_loop_agree _ _ Hvariant _ _ w Hinit) as Hloop.
  destruct (option_loop before1 initial_locals w) as [[[code1|st1]|e1] w1];
    destruct (option_loop before2 initial_locals w) as [[[code2|st2]|e2] w2];
    simpl in Hloop; try discriminate;
    try (inversion Hloop; subst; reflexivity).
  destruct Hloop as [-> Hsame]. simpl. unfold bind.
  now rewrite (handle_device_args c v st1 st2 w2 Hc Hsame).
Qed.

End Main.

Section EarlyExit.
Context {lib : SoapySDR}.

(** An option that is neither an early flag nor a rate that does not
    parse only updates the variables. *)
Lemma handle_option_quiet (g : getopt_result) (st : locals) (w : world) :
  is_early_exit g = false ->
  is_bad_rate g = false ->
  exists st', handle_option g st w = (Ok (inr st'), w).
Proof.
  unfold is_early_exit, is_bad_rate, handle_option.
  destruct g as [c arg]. simpl. intros Hearly Hrate.
  apply orb_false_iff in Hearly as [Hh Hi]. rewrite Hh, Hi.
  switch_cases; try (eexists; reflexivity).
  simpl in Hrate. destruct arg as [text|]; [|eexists; reflexivity].
  run. destruct (api_stod text); [eexists; reflexivity | discriminate].
Qed.

Lemma option_loop_quiet (argv : list getopt_result) :
  forallb (fun g => negb (is_early_exit g || is_bad_rate g)) argv = true ->
  forall st w, exists st', option_loop argv st w = (Ok (inr st'), w).
Proof.
  induction argv as [|g argv IH]; intros Hquiet st w; simpl.
  - eexists. reflexivity.
  - simpl in Hquiet. apply andb_true_iff in Hquiet as [Hg Hrest].
    apply negb_true_iff, orb_false_iff in Hg as [Hearly Hrate].
    destruct (handle_option_quiet g st w Hearly Hrate) as [st' Hstep].
    unfold bind. rewrite Hstep. now apply IH.
Qed.

Lemma printHelp_run (w : world) :
  printHelp w =
  (Ok EXIT_SUCCESS, World (env w) (cout w) (cerr w ++ usage) (calls w)).
Proof. reflexivity. Qed.

Lemma no_workflow_call_in_loads (modules : list string) :
  filter is_workflow_call (map call_loadModule modules) = [].
Proof. induction modules; simpl; auto. Qed.

(** C10, as the code has it. At the first [--help] or [--info] of a
    command line, provided every [--rate] value before it is one that
    [std::stod] accepts, [main] prints the banner and the report of that
    flag and returns the exit code 0; whatever else the command line
    holds, before or after, no find, make, probe, check or rate-test
    workflow is started. *)
Theorem early_flag_preempts
    (before rest : list getopt_result) (g : getopt_result) (w : world) :
  forallb (fun x => negb (is_early_exit x || is_bad_rate x)) before = true ->
  is_early_exit g = true ->
  let run := main (before ++ g :: rest) w in
  run = (printBanner ;; early_report g) w /\
  fst run = Ok EXIT_SUCCESS /\
  filter is_workflow_call (calls (snd run)) =
    filter is_workflow_call (calls w).
Proof.
  intros Hquiet Hearly run0.
  assert (Hrun : run0 = (printBanner ;; early_report g) w).
  { subst run0. unfold main. unfold bind at 1. rewrite option_loop_app.
    destruct (option_loop_quiet before Hquiet initial_locals w) as [st Hloop].
    rewrite Hloop. simpl. unfold bind at 1.
    unfold handle_option, early_report, is_early_exit in *.
    destruct (Ascii.eqb (opt g) "h").
    - unfold bind, printBanner, cerr_put. simpl. reflexivity.
    - simpl in Hearly. rewrite Hearly.
      unfold bind, printBanner, cerr_put, ret.
      destruct (printInfo _) as [[code|e] w']; reflexivity. }
  split; [exact Hrun|]. rewrite Hrun. unfold early_report.
  destruct (Ascii.eqb (opt g) "h").
  - unfold bind, printBanner, cerr_put. rewrite printHelp_run. simpl.
    split; reflexivity.
  - unfold bind, printBanner, cerr_put. rewrite printInfo_run. simpl.
    split; [reflexivity|].
    now rewrite filter_app, no_workflow_call_in_loads, app_nil_r.
Qed.

End EarlyExit.

(** ** Concrete runs *)

(** C7 as stated fails: after [--make], [--find] or [--probe] without a
    value, the value of [--args] is the argument string of the workflow.
    The make and probe workflows print it, and the find workflow hands it
    to the enumeration. *)
Lemma args_value_reaches_device_workflows :
  let w := Mock.start Mock.bench in
  let line c v := [Getopt c None; Getopt "a" (Some v)] in
  (args_variant (line "m"%char "driver=a") (line "m"%char "driver=b") /\
   cout (snd (main (line "m"%char "driver=a") w)) <>
   cout (snd (main (line "m"%char "driver=b") w))) /\
  (args_variant (line "p"%char "driver=a") (line "p"%char "driver=b") /\
   cout (snd (main (line "p"%char "driver=a") w)) <>
   cout (snd (main (line "p"%char "driver=b") w))) /\
  (args_variant (line "f"%char "driver=a") (line "f"%char "driver=b") /\
   calls (snd (main (line "f"%char "driver=a") w)) =
     [call_enumerate (lib := Mock.soapy) "driver=a"] /\
   calls (snd (main (line "f"%char "driver=b") w)) =
     [call_enumerate (lib := Mock.soapy) "driver=b"]).
Proof.
  intros w line.
  assert (Hvariant : forall c, args_variant (line c "driver=a") (line c "driver=b"))
    by (intros c; repeat constructor).
  repeat split; try apply Hvariant; try reflexivity;
    vm_compute; discriminate.
Qed.

(** C7 on [--args=driver=a --make=driver=null] and its variant. *)
Lemma args_value_overridden_witness :
  let w := Mock.start Mock.bench in
  let before1 := [Getopt "a" (Some "driver=a")] in
  let before2 := [Getopt "a" (Some "driver=b")] in
  args_variant before1 before2 /\
  takes_device_args "m" = true /\
  main (lib := Mock.soapy) (before1 ++ [Getopt "m" (Some "driver=null")]) w =
  main (lib := Mock.soapy) (before2 ++ [Getopt "m" (Some "driver=null")]) w.
Proof.
  intros w before1 before2.
  assert (Hvariant : args_variant before1 before2) by repeat constructor.
  split; [exact Hvariant|]. split; [reflexivity|].
  apply (args_value_overridden (lib := Mock.soapy)
           before1 before2 [] "m" "driver=null" w Hvariant).
  reflexivity.
Defined.

(** C10 as stated fails. On [--rate=abc --help] the conversion of the
    rate throws before [--help] is reached: nothing is printed and [main]
    does not return. On [--info --help] the run ends at [--info], and the
    report of [--help] is not printed. *)
Lemma help_flag_not_always_reached :
  let w := Mock.start Mock.bench in
  let bad_rate := [Getopt "r" (Some "abc"); Getopt "h" None] in
  let both := [Getopt "i" None; Getopt "h" None] in
  (given "h" bad_rate = true /\
   main (lib := Mock.soapy) bad_rate w = (Throw (std_exception "stod"), w) /\
   fst (main (lib := Mock.soapy) bad_rate w) <> Ok EXIT_SUCCESS /\
   cerr (snd (main (lib := Mock.soapy) bad_rate w)) = EmptyString) /\
  (given "h" both = true /\
   main (lib := Mock.soapy) both w = (printBanner ;; printInfo) w /\
   cerr (snd (main (lib := Mock.soapy) both w)) = cerr (snd (printBanner w)) /\
   main (lib := Mock.soapy) both w <> (printBanner ;; printHelp) w).
Proof.
  intros w bad_rate both. split.
  - split; [|split; [|split]].
    + reflexivity.
    + vm_compute. reflexivity.
    + vm_compute. discriminate.
    + vm_compute. reflexivity.
  - split; [|split; [|split]].
    + reflexivity.
    + vm_compute. reflexivity.
    + vm_compute. reflexivity.
    + intros H.
      apply (f_equal (fun run => String.length (cerr (snd run)))) in H.
      vm_compute in H. discriminate.
Qed.

(** C10 on [--find --rate=12 --info --check=null]. *)
Lemma early_flag_preempts_witness :
  let before := [Getopt "f" None; Getopt "r" (Some "12")] in
  let rest := [Getopt "c" (Some "null")] in
  let g := Getopt "i" None in
  let w := Mock.start Mock.bench in
  let run := main (lib := Mock.soapy) (before ++ g :: rest) w in
  forallb (fun x => negb (is_early_exit x ||
                          is_bad_rate (lib := Mock.soapy) x)) before = true /\
  is_early_exit g = true /\
  run = (printBanner ;; early_report g) w /\
  fst run = Ok EXIT_SUCCESS /\
  filter is_workflow_call (calls (snd run)) = [].
Proof.
  intros before rest g w run0. split; [reflexivity|]. split; [reflexivity|].
  apply (early_flag_preempts (lib := Mock.soapy) before rest g w);
    reflexivity.
Defined.

(** * Further properties of the workflows *)

Section LifecycleDiscipline.
Context {lib : SoapySDR}.

(** Closes a case of the analysis of a device workflow. *)
Ltac lifecycle_case :=
  simpl; rewrite <- ?app_assoc; simpl;
  do 5 eexists; split; [reflexivity|];
  split; [intros what0; discriminate|];
  split;
    [ first [ left; reflexivity
            | right; eexists; left; reflexivity
            | right; eexists; right; reflexivity ]
    | unfold EXIT_SUCCESS, EXIT_FAILURE;
      first [ intros H; discriminate H
            | intros _; eexists; reflexivity ] ].

Lemma probeDevice_cases (argStr : string) (w : world) :
  exists r new e out err,
    probeDevice argStr w = (r, World e out err (calls w ++ new)) /\
    (forall what, r <> Throw (std_exception what)) /\
    lifecycle_calls argStr true new /\
    (r = Ok EXIT_SUCCESS ->
     exists d,
       new = [call_make argStr (Some d); call_probe d; call_unmake d]).
Proof.
  unfold lifecycle_calls, probeDevice. run.
  destruct (api_make argStr (env w)) as [[d|[what|]] e1]; simpl;
    [| lifecycle_case | lifecycle_case].
  destruct (api_SoapySDRDeviceProbe d e1) as [[text|[what|]] e2]; simpl;
    [| lifecycle_case | lifecycle_case].
  destruct (api_unmake d e2) as [[[]|[what|]] e3]; lifecycle_case.
Qed.

Lemma makeDevice_cases (argStr : string) (w : world) :
  exists r new e out err,
    makeDevice argStr w = (r, World e out err (calls w ++ new)) /\
    (forall what, r <> Throw (std_exception what)) /\
    lifecycle_calls argStr false new /\
    (r = Ok EXIT_SUCCESS ->
     exists d, new = [call_make argStr (Some d); call_unmake d]).
Proof.
  unfold lifecycle_calls, makeDevice.
  unfold bind at 1. unfold cout_put at 1. unfold bind at 1.
  unfold try_catch. unfold bind at 1. unfold Device_make, invoke.
  cbn [env cout cerr calls].
  destruct (api_make argStr (env w)) as [[d|[what|]] e1];
    [| run; lifecycle_case | run; lifecycle_case].
  unfold bind at 1. unfold cout_put at 1. cbn [env cout cerr calls].
  unfold bind at 1. unfold read_result at 1. cbn [env].
  destruct (api_getDriverKey d e1) as [driver|[what|]];
    [| run; lifecycle_case | run; lifecycle_case].
  unfold bind at 1 2. unfold cout_put at 1 2. cbn [env cout cerr calls].
  unfold bind at 1. unfold read_result at 1. cbn [env].
  destruct (api_getHardwareKey d e1) as [hardware|[what|]];
    [| run; lifecycle_case | run; lifecycle_case].
  unfold bind at 1. unfold cout_put at 1. cbn [env cout cerr calls].
  unfold bind at 1. unfold read_result at 1. cbn [env].
  destruct (api_getHardwareInfo d e1) as [info|[what|]];
    [| run; lifecycle_case | run; lifecycle_case].
  unfold bind at 1.
  rewrite (for_each_writes _
             (fun _ it => "  " ++ fst it ++ "=" ++ snd it ++ endl))
    by reflexivity.
  cbn [env cout cerr calls].
  unfold bind at 1. unfold Device_unmake, invoke. cbn [env cout cerr calls].
  destruct (api_unmake d e1) as [[[]|[what|]] e2]; run; lifecycle_case.
Qed.

(** X4. Whatever the driver does, the probe workflow never lets a
    [std::exception] escape, and the calls it makes are a construction
    alone (when it failed), or a construction and the probe of the handle,
    followed or not by one release of that same handle: never a release
    without a construction, never two. When it returns the exit code 0,
    the handle has been released. *)
Theorem probeDevice_discipline (argStr : string) (w : world) :
  let run := probeDevice argStr w in
  (forall what, fst run <> Throw (std_exception what)) /\
  exists new,
    calls (snd run) = (calls w ++ new)%list /\
    lifecycle_calls argStr true new /\
    (fst run = Ok EXIT_SUCCESS ->
     exists d,
       new = [call_make argStr (Some d); call_probe d; call_unmake d]).
Proof.
  intros run0.
  destruct (probeDevice_cases argStr w)
    as (r & new & e & out & err & Hrun & Hr & Hnew & Hok).
  subst run0. rewrite Hrun. simpl. split; [exact Hr|].
  exists new. split; [reflexivity|]. split; [exact Hnew | exact Hok].
Qed.

(** X5. The same discipline holds of the make workflow, which inspects
    the handle through calls without side effects: a construction alone,
    followed or not by one release of the handle it returned; and the
    handle has been released when the workflow returns the exit code 0. *)
Theorem makeDevice_discipline (argStr : string) (w : world) :
  let run := makeDevice argStr w in
  (forall what, fst run <> Throw (std_exception what)) /\
  exists new,
    calls (snd run) = (calls w ++ new)%list /\
    lifecycle_calls argStr false new /\
    (fst run = Ok EXIT_SUCCESS ->
     exists d, new = [call_make argStr (Some d); call_unmake d]).
Proof.
  intros run0.
  destruct (makeDevice_cases argStr w)
    as (r & new & e & out & err & Hrun & Hr & Hnew & Hok).
  subst run0. rewrite Hrun. simpl. split; [exact Hr|].
  exists new. split; [reflexivity|]. split; [exact Hnew | exact Hok].
Qed.

End LifecycleDiscipline.

Section Listing.
Context {lib : SoapySDR}.

Lemma lex_le_cases (a b : string) :
  lex_le a b <-> a = b \/ OrderedTypeEx.String_as_OT.lt a b.
Proof.
  unfold lex_le, String.leb.
  pose proof (OrderedTypeEx.String_as_OT.cmp_lt a b) as Hlt.
  pose proof (OrderedTypeEx.String_as_OT.cmp_eq a b) as Heq.
  unfold OrderedTypeEx.String_as_OT.cmp in *.
  destruct (String.compare a b); split; intros H;
    try discriminate; try reflexivity.
  - left. now apply Heq.
  - right. now apply Hlt.
  - destruct H as [H|H]; [apply Heq in H | apply Hlt in H]; discriminate.
Qed.

Lemma lex_le_trans (a b c : string) : lex_le a b -> lex_le b c -> lex_le a c.
Proof.
  rewrite !lex_le_cases. intros [->|Hab] [->|Hbc]; auto.
  right. eapply OrderedTypeEx.String_as_OT.lt_trans; eassumption.
Qed.

Lemma lex_le_refl (a : string) : lex_le a a.
Proof. apply lex_le_cases. now left. Qed.

(** A list has one sorted rearrangement. *)
Lemma sorted_unique (l1 l2 : list string) :
  StronglySorted lex_le l1 -> StronglySorted lex_le l2 ->
  Permutation l1 l2 -> l1 = l2.
Proof.
  intros H1. revert l2.
  induction H1 as [|a l1 Hsorted1 IH Ha]; intros l2 H2 Hperm.
  - apply Permutation_nil in Hperm. now subst.
  - destruct H2 as [|b l2 Hsorted2 Hb].
    + apply Permutation_sym, Permutation_nil in Hperm. discriminate.
    + assert (Hab : a = b).
      { apply String.leb_antisym.
        - assert (Hin : In b (a :: l1))
            by (eapply Permutation_in;
                [apply Permutation_sym; exact Hperm | now left]).
          destruct Hin as [->|Hin]; [apply lex_le_refl|].
          rewrite Forall_forall in Ha. now apply Ha.
        - assert (Hin : In a (b :: l2))
            by (eapply Permutation_in; [exact Hperm | now left]).
          destruct Hin as [->|Hin]; [apply lex_le_refl|].
          rewrite Forall_forall in Hb. now apply Hb. }
      subst b. f_equal. apply IH; [exact Hsorted2|].
      eapply Permutation_cons_inv. exact Hperm.
Qed.

Lemma std_sort_strongly_sorted (v : list string) :
  StronglySorted lex_le (std_sort v).
Proof.
  apply Sorted_StronglySorted.
  - intros a b c. apply lex_le_trans.
  - apply StringSort.Sorted_sort.
Qed.

Lemma std_sort_of_permutation (v1 v2 : list string) :
  Permutation v1 v2 -> std_sort v1 = std_sort v2.
Proof.
  intros Hperm. apply sorted_unique; try apply std_sort_strongly_sorted.
  eapply Permutation_trans;
    [apply Permutation_sym, StringSort.Permuted_sort|].
  eapply Permutation_trans; [exact Hperm|].
  apply StringSort.Permuted_sort.
Qed.

(** X6. The sparse listing does not depend on the order in which the
    devices are enumerated: two enumerations whose descriptors contribute
    the same strings, in any order, give the same numbered list. *)
Theorem findDevices_sparse_order_independent
    (args1 args2 : string) (w1 w2 : world) :
  Permutation (map sparse_entry (fst (api_enumerate args1 (env w1))))
              (map sparse_entry (fst (api_enumerate args2 (env w2)))) ->
  cout w1 = cout w2 ->
  cout (snd (findDevices args1 true w1)) =
  cout (snd (findDevices args2 true w2)) /\
  fst (findDevices args1 true w1) = fst (findDevices args2 true w2).
Proof.
  intros Hperm Hout. rewrite !findDevices_run. cbn [fst snd cout].
  rewrite (std_sort_of_permutation _ _ Hperm), Hout. split; [reflexivity|].
  apply Permutation_length in Hperm. rewrite !length_map in Hperm.
  destruct (fst (api_enumerate args1 (env w1)));
    destruct (fst (api_enumerate args2 (env w2)));
    try discriminate; reflexivity.
Qed.

Lemma indexed_lines_nth {A : Type} (line : nat -> A -> string)
    (xs : list A) (start i : nat) (x : A) :
  nth_error xs i = Some x ->
  occurs (line (start + i)%nat x) (indexed_lines line start xs).
Proof.
  revert start i. induction xs as [|y xs IH]; intros start i Hnth.
  - destruct i; discriminate.
  - destruct i as [|i]; simpl in *.
    + injection Hnth as ->. rewrite Nat.add_0_r.
      exists EmptyString, (indexed_lines line (S start) xs). reflexivity.
    + apply (IH (S start)) in Hnth.
      replace (start + S i)%nat with (S start + i)%nat by lia.
      destruct Hnth as [before [after Heq]].
      exists (line start y ++ before), after.
      rewrite Heq. now rewrite !append_assoc.
Qed.

(** X7. In full mode the device at position [i] of the enumeration is
    listed under the header [Found device i], followed by all its
    key/value pairs in the order of the map and a blank line. *)
Theorem findDevices_full_entry
    (argStr : string) (w : world) (i : nat) (d : Kwargs) :
  nth_error (fst (api_enumerate argStr (env w))) i = Some d ->
  occurs ("Found device " ++ dec i ++ endl ++
          lines_of (fun it => "  " ++ fst it ++ " = " ++ snd it ++ endl) d ++
          endl)
         (cout (snd (findDevices argStr false w))).
Proof.
  intros Hnth. rewrite findDevices_run. cbn [snd cout].
  apply (indexed_lines_nth
           (fun i d =>
              "Found device " ++ dec i ++ endl ++
              lines_of (fun it => "  " ++ fst it ++ " = " ++ snd it ++ endl) d
              ++ endl) _ 0%nat) in Hnth.
  simpl plus in Hnth. fold (full_listing 0) in Hnth.
  destruct Hnth as [before [after Heq]].
  exists (cout w ++ before),
    (after ++ match fst (api_enumerate argStr (env w)) with
              | [] => EmptyString
              | _ => endl
              end).
  unfold full_listing in *. rewrite Heq. now rewrite !append_assoc.
Qed.

End Listing.

Section Reports.
Context {lib : SoapySDR}.

(** X8. The verdict [checkDriver] prints agrees with its exit code: the
    report ends with PRESENT when it returns 0 and with MISSING! when it
    returns 1, and nothing is written to the error stream. *)
Theorem checkDriver_verdict (name : string) (w : world) :
  let run := checkDriver name w in
  exists code,
    fst run = Ok code /\
    (code = EXIT_SUCCESS \/ code = EXIT_FAILURE) /\
    cout (snd run) =
      cout w ++ "Loading modules... done" ++ endl ++
      "Checking driver '" ++ name ++ "'... " ++
      (if Z.eqb code EXIT_SUCCESS then "PRESENT" else "MISSING!") ++ endl /\
    cerr (snd run) = cerr w.
Proof.
  unfold checkDriver. run.
  destruct (find name (api_listFindFunctions (api_loadModules (env w))));
    run.
  - exists EXIT_SUCCESS. repeat split; [now left|].
    string_norm. reflexivity.
  - exists EXIT_FAILURE. repeat split; [now right|].
    string_norm. reflexivity.
Qed.

Lemma join_names_from (names : list string) (acc : string) :
  acc <> EmptyString ->
  Forall (fun name => name <> EmptyString) names ->
  fold_left
    (fun acc name => (if negb (empty acc) then acc ++ ", " else acc) ++ name)
    names acc =
  acc ++ lines_of (fun name => ", " ++ name) names.
Proof.
  intros Hacc Hnames. revert acc Hacc.
  induction Hnames as [|name names Hname _ IH]; intros acc Hacc; simpl.
  - unfold lines_of. simpl. now rewrite append_empty_r.
  - destruct acc as [|c acc]; [contradiction|]. simpl negb. cbv iota.
    rewrite IH.
    + rewrite lines_of_cons. now rewrite !append_assoc.
    + simpl. discriminate.
Qed.

Lemma concat_separated (name : string) (names : list string) :
  String.concat ", " (name :: names) =
  name ++ lines_of (fun name => ", " ++ name) names.
Proof.
  revert name. induction names as [|next names IH]; intros name.
  - unfold lines_of. simpl. now rewrite append_empty_r.
  - change (String.concat ", " (name :: next :: names))
      with (name ++ ", " ++ String.concat ", " (next :: names)).
    rewrite IH, lines_of_cons. now rewrite !append_assoc.
Qed.

(** X9. The loop that builds the lists of the info report (factories,
    and the targets of a converter) separates the names with a comma and
    a space and adds nothing before the first or after the last, when no
    name is empty. *)
Theorem join_names_separated (names : list string) :
  Forall (fun name => name <> EmptyString) names ->
  join_names names = String.concat ", " names.
Proof.
  intros Hnames. unfold join_names.
  destruct Hnames as [|name names Hname Hnames]; [reflexivity|].
  simpl fold_left. rewrite join_names_from by assumption.
  now rewrite concat_separated.
Qed.

(** X11. The factories line of the info report lists the names registered
    once the modules of the report have been loaded, separated by commas,
    and reads [No factories found!] when the registry is empty. (The
    names are not empty.) *)
Theorem printInfo_factories (w : world) :
  let run := printInfo w in
  let names := map fst (api_listFindFunctions (env (snd run))) in
  Forall (fun name => name <> EmptyString) names ->
  occurs ("Available factories... " ++
          match names with
          | [] => "No factories found!"
          | _ => String.concat ", " names
          end ++ endl ++ "Available converters..." ++ endl)
         (cout (snd run)).
Proof.
  intros run0 names Hnames. subst run0 names.
  rewrite printInfo_run in *. cbn [snd env cout] in *.
  set (pad := padding _) in *. unfold info_report.
  destruct (module_lines pad (api_listModules (env w)) (env w))
    as [text e'] eqn:Hlines.
  cbn [snd] in Hnames. unfold info_footer.
  assert (Hjoin :
    join_names (map fst (api_listFindFunctions e')) =
    String.concat ", " (map fst (api_listFindFunctions e'))).
  { unfold join_names.
    destruct Hnames as [|name names' Hname Hnames']; [reflexivity|].
    simpl fold_left. rewrite join_names_from by assumption.
    now rewrite concat_separated. }
  rewrite Hjoin.
  set (names := map fst (api_listFindFunctions e')) in *.
  assert (Hline :
    (if empty (String.concat ", " names) then "No factories found!"
     else String.concat ", " names) =
    match names with
    | [] => "No factories found!"
    | _ => String.concat ", " names
    end).
  { destruct Hnames as [|name names' Hname _]; [reflexivity|].
    rewrite concat_separated. destruct name; [contradiction | reflexivity]. }
  rewrite Hline. cbn [snd]. fold names.
  set (verdict := match names with
                  | [] => "No factories found!"
                  | _ => String.concat ", " names
                  end).
  set (found := match api_listModules (env w) with
                | [] => "No modules found!" ++ endl
                | _ => EmptyString
                end).
  set (paths := lines_of _ (api_listSearchPaths (env w))).
  set (converters := lines_of _ (api_listAvailableSourceFormats e')).
  exists (cout w ++ info_header (env w) ++ paths ++ text ++ found),
    converters.
  rewrite !append_assoc. reflexivity.
Qed.

End Reports.

Section CommandLine.
Context {lib : SoapySDR}.

Lemma handle_unknown_option (g : getopt_result) (st : locals) (w : world) :
  is_known_option g = false -> handle_option g st w = (Ok (inr st), w).
Proof.
  unfold is_known_option, option_values, handle_option.
  destruct g as [c arg]. simpl. intros Hunknown.
  repeat match type of Hunknown with
         | _ || _ = false =>
             let Hcase := fresh "Hcase" in
             apply orb_false_iff in Hunknown;
             destruct Hunknown as [Hcase Hunknown]; rewrite Hcase
         end.
  reflexivity.
Qed.

Lemma option_loop_skips_unknown
    (argv : list getopt_result) (st : locals) (w : world) :
  option_loop (filter is_known_option argv) st w = option_loop argv st w.
Proof.
  revert st w. induction argv as [|g argv IH]; intros st w; simpl.
  - reflexivity.
  - destruct (is_known_option g) eqn:Hknown; simpl.
    + unfold bind. destruct (handle_option g st w) as [[[code|st']|e] w'];
        try reflexivity. apply IH.
    + unfold bind. rewrite handle_unknown_option by exact Hknown. apply IH.
Qed.

(** X12. The switch has no default case. A value that is none of the
    eleven of [long_options] (the ['?'] that [getopt_long_only] returns
    for an option it rejects) changes no variable of [main]: the outcome
    of [main], what it writes to [std::cout], the library calls it makes
    and the environment it leaves are those of the command line without
    such options. *)
Theorem main_skips_unknown_options (argv : list getopt_result) (w : world) :
  let without := main (filter is_known_option argv) w in
  let run := main argv w in
  fst without = fst run /\
  cout (snd without) = cout (snd run) /\
  calls (snd without) = calls (snd run) /\
  env (snd without) = env (snd run).
Proof.
  intros without run0.
  assert (Hsame : without = run0).
  { subst without run0. unfold main, bind.
    now rewrite option_loop_skips_unknown. }
  rewrite Hsame. repeat split; reflexivity.
Qed.

Lemma last_after {A : Type} (v d : A) (l : list A) :
  last (v :: l) d = last l v.
Proof.
  revert v d. induction l as [|x l IH]; intros v d; [reflexivity|].
  change (last (v :: x :: l) d) with (last (x :: l) d).
  now rewrite !IH.
Qed.

Lemma supplied_cons (codes : list ascii) (g : getopt_result)
    (argv : list getopt_result) (d : string) :
  last (supplied codes (g :: argv)) d =
  last (supplied codes argv)
       (if existsb (Ascii.eqb (opt g)) codes then assign d (optarg g) else d).
Proof.
  unfold supplied. simpl.
  destruct (existsb (Ascii.eqb (opt g)) codes); [|reflexivity].
  destruct (optarg g) as [v|]; simpl; [|reflexivity].
  apply last_after.
Qed.

Lemma handle_option_strings
    (g : getopt_result) (st st' : locals) (w w' : world) :
  handle_option g st w = (Ok (inr st'), w') ->
  argStr st' =
    (if existsb (Ascii.eqb (opt g)) ["f"; "m"; "p"; "a"]%char
     then assign (argStr st) (optarg g) else argStr st) /\
  driverName st' =
    (if existsb (Ascii.eqb (opt g)) ["c"]%char
     then assign (driverName st) (optarg g) else driverName st) /\
  chanStr st' =
    (if existsb (Ascii.eqb (opt g)) ["n"]%char
     then assign (chanStr st) (optarg g) else chanStr st) /\
  dirStr st' =
    (if existsb (Ascii.eqb (opt g)) ["d"]%char
     then assign (dirStr st) (optarg g) else dirStr st).
Proof.
  unfold handle_option. destruct g as [c arg]. simpl.
  destruct (Ascii.eqb_spec c "h") as [->|_]; [run; discriminate|].
  destruct (Ascii.eqb_spec c "i") as [->|_].
  { unfold bind. unfold printBanner, cerr_put, ret.
    destruct (printInfo _) as [[code|e] w0]; discriminate. }
  destruct (Ascii.eqb_spec c "f") as [->|_];
    [run; intros [= <- _]; simpl; auto|].
  destruct (Ascii.eqb_spec c "m") as [->|_];
    [run; intros [= <- _]; simpl; auto|].
  destruct (Ascii.eqb_spec c "p") as [->|_];
    [run; intros [= <- _]; simpl; auto|].
  destruct (Ascii.eqb_spec c "c") as [->|_];
    [run; intros [= <- _]; simpl; auto|].
  destruct (Ascii.eqb_spec c "s") as [->|_];
    [run; intros [= <- _]; simpl; auto|].
  destruct (Ascii.eqb_spec c "a") as [->|_];
    [run; intros [= <- _]; simpl; auto|].
  destruct (Ascii.eqb_spec c "r") as [->|_].
  { destruct arg as [text|]; run.
    - destruct (api_stod text); [|discriminate].
      intros [= <- _]; simpl; auto.
    - intros [= <- _]; simpl; auto. }
  destruct (Ascii.eqb_spec c "n") as [->|_];
    [run; intros [= <- _]; simpl; auto|].
  destruct (Ascii.eqb_spec c "d") as [->|_];
    [run; intros [= <- _]; simpl; auto|].
  run. intros [= <- _]. simpl. auto.
Qed.

Lemma option_loop_strings (argv : list getopt_result) :
  forall st st' w w',
    option_loop argv st w = (Ok (inr st'), w') ->
    argStr st' = last (supplied ["f"; "m"; "p"; "a"]%char argv) (argStr st) /\
    driverName st' = last (supplied ["c"]%char argv) (driverName st) /\
    chanStr st' = last (supplied ["n"]%char argv) (chanStr st) /\
    dirStr st' = last (supplied ["d"]%char argv) (dirStr st).
Proof.
  induction argv as [|g argv IH]; intros st st' w w'.
  - simpl. unfold ret. intros [= <- _]. auto.
  - cbn [option_loop]. unfold bind.
    destruct (handle_option g st w) as [[[code|st1]|e] w1] eqn:Hstep;
      try discriminate.
    intros Hrest.
    apply handle_option_strings in Hstep as (Ha & Hc & Hn & Hd).
    apply IH in Hrest as (Ha' & Hc' & Hn' & Hd').
    rewrite !supplied_cons, <- Ha, <- Hc, <- Hn, <- Hd. auto.
Qed.

(** X13. The last writer wins. When the option loop runs through the
    command line, the argument string is the last value supplied to any
    of [--find], [--make], [--probe] and [--args] (an option without a
    value changes nothing), and the driver name, the channels and the
    direction are the last values supplied to [--check], [--channels] and
    [--direction]; each is empty when no value was supplied. *)
Theorem main_last_value_wins
    (argv : list getopt_result) (w w' : world) (st : locals) :
  option_loop argv initial_locals w = (Ok (inr st), w') ->
  argStr st = last (supplied ["f"; "m"; "p"; "a"]%char argv) EmptyString /\
  driverName st = last (supplied ["c"]%char argv) EmptyString /\
  chanStr st = last (supplied ["n"]%char argv) EmptyString /\
  dirStr st = last (supplied ["d"]%char argv) EmptyString.
Proof. intros Hloop. now apply option_loop_strings in Hloop. Qed.

End CommandLine.

Section Requests.
Context {lib : SoapySDR}.

Lemma handle_option_idle (g : getopt_result) (st : locals) (w : world) :
  requests_nothing g = true ->
  idle st ->
  exists st',
    handle_option g st w = (Ok (inr st'), w) /\
    idle st' /\
    sparsePrintFlag st' = sparsePrintFlag st || Ascii.eqb (opt g) "s".
Proof.
  unfold requests_nothing, idle, handle_option.
  destruct g as [c arg]. simpl.
  intros Hquiet (Hname & Hfind & Hmake & Hprobe & Hrate).
  destruct (Ascii.eqb_spec c "h") as [->|_]; [discriminate|].
  destruct (Ascii.eqb_spec c "i") as [->|_]; [discriminate|].
  destruct (Ascii.eqb_spec c "f") as [->|_]; [discriminate|].
  destruct (Ascii.eqb_spec c "m") as [->|_]; [discriminate|].
  destruct (Ascii.eqb_spec c "p") as [->|_]; [discriminate|].
  destruct (Ascii.eqb_spec c "c") as [->|_].
  { simpl in *. eexists. split; [reflexivity|]. simpl.
    rewrite orb_false_r. repeat split; try assumption.
    destruct arg as [v|]; simpl; [|assumption].
    destruct v; [reflexivity | discriminate]. }
  destruct (Ascii.eqb_spec c "s") as [->|_].
  { eexists. split; [reflexivity|]. simpl.
    rewrite orb_true_r. repeat split; assumption. }
  destruct (Ascii.eqb_spec c "a") as [->|_].
  { eexists. split; [reflexivity|]. simpl.
    rewrite orb_false_r. repeat split; assumption. }
  destruct (Ascii.eqb_spec c "r") as [->|_].
  { simpl in *. destruct arg as [v|]; [discriminate|].
    eexists. split; [reflexivity|]. simpl.
    rewrite orb_false_r. repeat split; assumption. }
  destruct (Ascii.eqb_spec c "n") as [->|_].
  { eexists. split; [reflexivity|]. simpl.
    rewrite orb_false_r. repeat split; assumption. }
  destruct (Ascii.eqb_spec c "d") as [->|_].
  { eexists. split; [reflexivity|]. simpl.
    rewrite orb_false_r. repeat split; assumption. }
  eexists. split; [reflexivity|].
  rewrite orb_false_r. repeat split; assumption.
Qed.

Lemma option_loop_idle (argv : list getopt_result) :
  forallb requests_nothing argv = true ->
  forall st w,
    idle st ->
    exists st',
      option_loop argv st w = (Ok (inr st'), w) /\
      idle st' /\
      sparsePrintFlag st' = sparsePrintFlag st || given "s" argv.
Proof.
  unfold given.
  induction argv as [|g argv IH]; intros Hquiet st w Hidle; simpl.
  - exists st. rewrite orb_false_r.
    split; [reflexivity | split; [exact Hidle | reflexivity]].
  - simpl in Hquiet. apply andb_true_iff in Hquiet as [Hg Hrest].
    destruct (handle_option_idle g st w Hg Hidle)
      as (st1 & Hstep & Hidle1 & Hsparse1).
    destruct (IH Hrest st1 w Hidle1) as (st2 & Hloop & Hidle2 & Hsparse2).
    exists st2. unfold bind. rewrite Hstep, Hloop.
    split; [reflexivity | split; [exact Hidle2|]].
    now rewrite Hsparse2, Hsparse1, orb_assoc.
Qed.

(** X14. A command line that asks for no workflow (no option at all, or
    only [--sparse], [--args], [--channels], [--direction], rejected
    options, [--check] without a driver name and [--rate] without a
    value) gets the usage text and the exit code 0, after the banner
    unless [--sparse] is given; no library call is made. (The comparison
    [0.0 != 0.0] is false.) *)
Theorem main_without_request (argv : list getopt_result) (w : world) :
  double_neq double_zero double_zero = false ->
  forallb requests_nothing argv = true ->
  let run := main argv w in
  run = (when (negb (given "s" argv)) printBanner ;; printHelp) w /\
  fst run = Ok EXIT_SUCCESS /\
  cout (snd run) = cout w /\
  calls (snd run) = calls w.
Proof.
  intros Hzero Hquiet run0.
  assert (Hinit : idle initial_locals) by (repeat split; reflexivity).
  destruct (option_loop_idle argv Hquiet initial_locals w Hinit)
    as (st & Hloop & (Hname & Hfind & Hmake & Hprobe & Hrate) & Hsparse).
  assert (Hrun :
    run0 = (when (negb (given "s" argv)) printBanner ;; printHelp) w).
  { subst run0. unfold main. unfold bind at 1. rewrite Hloop.
    unfold dispatch.
    rewrite Hname, Hfind, Hmake, Hprobe, Hrate, Hzero, Hsparse.
    reflexivity. }
  split; [exact Hrun|]. rewrite Hrun.
  destruct (given "s" argv); run; repeat split; reflexivity.
Qed.


(** X16. The check workflow and the fallback to help do not read the
    argument string: two command lines that differ only in values given
    to [--args] behave alike when the first of them ends in either. *)
Theorem args_irrelevant_to_check_and_help
    (argv1 argv2 : list getopt_result) (w w' : world) (st : locals) :
  args_variant argv1 argv2 ->
  option_loop argv1 initial_locals w = (Ok (inr st), w') ->
  selected st = wf_check \/ selected st = wf_help ->
  main argv1 w = main argv2 w.
Proof.
  intros Hvariant Hloop Hselected.
  assert (Hinit : same_but_argStr initial_locals initial_locals) by reflexivity.
  pose proof (option_loop_agree _ _ Hvariant _ _ w Hinit) as Hagree.
  unfold main. unfold bind at 1 2. rewrite Hloop in *.
  destruct (option_loop argv2 initial_locals w) as [[[code2|st2]|e2] w2];
    simpl in Hagree; try discriminate.
  destruct Hagree as [<- Hsame].
  rewrite !dispatch_selected.
  unfold same_but_argStr, without_argStr in Hsame.
  injection Hsame as Hchan Hdir Hrate Hname Hfind Hsparse Hmake Hprobe.
  assert (Hsel2 : selected st2 = selected st).
  { unfold selected, priority, requested. simpl.
    now rewrite Hname, Hfind, Hmake, Hprobe, Hrate. }
  rewrite Hsel2, Hsparse.
  destruct Hselected as [-> | ->]; simpl; now rewrite ?Hname.
Qed.

End Requests.

Section Dispatch.
Context {lib : SoapySDR}.

Lemma last_app_default {A : Type} (l1 l2 : list A) (d : A) :
  last (l1 ++ l2) d = last l2 (last l1 d).
Proof.
  revert d. induction l1 as [|x l1 IH]; intros d; [reflexivity|].
  change ((x :: l1) ++ l2)%list with (x :: (l1 ++ l2))%list.
  now rewrite !last_after, IH.
Qed.

Lemma handle_option_rate
    (g : getopt_result) (st st' : locals) (w w' : world) :
  handle_option g st w = (Ok (inr st'), w') ->
  sampleRate st' = last (parsed_rates [g]) (sampleRate st).
Proof.
  unfold handle_option, parsed_rates. destruct g as [c arg]. simpl.
  destruct (Ascii.eqb_spec c "h") as [->|_]; [run; discriminate|].
  destruct (Ascii.eqb_spec c "i") as [->|_].
  { unfold bind. unfold printBanner, cerr_put, ret.
    destruct (printInfo _) as [[code|e] w0]; discriminate. }
  destruct (Ascii.eqb_spec c "f") as [->|_];
    [run; intros [= <- _]; reflexivity|].
  destruct (Ascii.eqb_spec c "m") as [->|_];
    [run; intros [= <- _]; reflexivity|].
  destruct (Ascii.eqb_spec c "p") as [->|_];
    [run; intros [= <- _]; reflexivity|].
  destruct (Ascii.eqb_spec c "c") as [->|_];
    [run; intros [= <- _]; reflexivity|].
  destruct (Ascii.eqb_spec c "s") as [->|_];
    [run; intros [= <- _]; reflexivity|].
  destruct (Ascii.eqb_spec c "a") as [->|_];
    [run; intros [= <- _]; reflexivity|].
  destruct (Ascii.eqb_spec c "r") as [->|_].
  { destruct arg as [text|]; run.
    - destruct (api_stod text) as [rate|e]; [|discriminate].
      intros [= <- _]. reflexivity.
    - intros [= <- _]. reflexivity. }
  destruct (Ascii.eqb_spec c "n") as [->|_];
    [run; intros [= <- _]; reflexivity|].
  destruct (Ascii.eqb_spec c "d") as [->|_];
    [run; intros [= <- _]; reflexivity|].
  run. intros [= <- _]. reflexivity.
Qed.

Lemma option_loop_rate (argv : list getopt_result) :
  forall st st' w w',
    option_loop argv st w = (Ok (inr st'), w') ->
    sampleRate st' = last (parsed_rates argv) (sampleRate st).
Proof.
  induction argv as [|g argv IH]; intros st st' w w'.
  - simpl. unfold ret. intros [= <- _]. reflexivity.
  - cbn [option_loop]. unfold bind.
    destruct (handle_option g st w) as [[[code|st1]|e] w1] eqn:Hstep;
      try discriminate.
    intros Hrest. apply handle_option_rate in Hstep. apply IH in Hrest.
    assert (Hcons :
      parsed_rates (g :: argv) = (parsed_rates [g] ++ parsed_rates argv)%list).
    { unfold parsed_rates. simpl. now rewrite app_nil_r. }
    now rewrite Hcons, last_app_default, <- Hstep.
Qed.

(** C4, as the code has it. On a command line without [--help] and
    [--info], on which every [--rate] value is text that [std::stod]
    accepts, the option loop runs to its end, and [main] prints the
    banner (unless sparse) and runs exactly one workflow: the first of
    check (driver name not empty), find, make, probe and rate test (rate
    not zero) that the command line asked for, and help when it asked for
    none of them. The find, make and probe flags say whether the option is
    on the command line, the driver name is the last value supplied to
    [--check], and the rate is the last value parsed from [--rate]. *)
Theorem main_dispatch_priority (argv : list getopt_result) (w : world) :
  forallb (fun g => negb (is_early_exit g || is_bad_rate g)) argv = true ->
  exists st,
    option_loop argv initial_locals w = (Ok (inr st), w) /\
    main argv w =
      (when (negb (sparsePrintFlag st)) printBanner ;;
       run_workflow st (selected st)) w /\
    findDevicesFlag st = given "f" argv /\
    makeDeviceFlag st = given "m" argv /\
    probeDeviceFlag st = given "p" argv /\
    sparsePrintFlag st = given "s" argv /\
    driverName st = last (supplied ["c"]%char argv) EmptyString /\
    sampleRate st = last (parsed_rates argv) double_zero.
Proof.
  intros Hquiet.
  destruct (option_loop_quiet argv Hquiet initial_locals w) as [st Hloop].
  exists st. split; [exact Hloop|]. split; [now apply main_after_loop|].
  pose proof (option_loop_flags argv _ _ _ _ Hloop) as (Hf & Hm & Hp & Hs).
  pose proof (option_loop_strings argv _ _ _ _ Hloop) as (_ & Hc & _ & _).
  pose proof (option_loop_rate argv _ _ _ _ Hloop) as Hr.
  repeat split; assumption.
Qed.

End Dispatch.

(** C4 on [--probe --find=driver=null --rate=12 --make]: find is run. *)
Lemma main_dispatch_priority_witness :
  let argv := [Getopt "p" None; Getopt "f" (Some "driver=null");
               Getopt "r" (Some "12"); Getopt "m" None] in
  let w := Mock.start Mock.bench in
  forallb (fun g => negb (is_early_exit g ||
                          is_bad_rate (lib := Mock.soapy) g)) argv = true /\
  exists st,
    option_loop argv initial_locals w = (Ok (inr st), w) /\
    main argv w =
      (when (negb (sparsePrintFlag st)) printBanner ;;
       run_workflow st (selected st)) w /\
    findDevicesFlag st = given "f" argv /\
    makeDeviceFlag st = given "m" argv /\
    probeDeviceFlag st = given "p" argv /\
    sparsePrintFlag st = given "s" argv /\
    driverName st = last (supplied ["c"]%char argv) EmptyString /\
    sampleRate st = last (parsed_rates argv) double_zero.
Proof.
  intros argv w. split; [reflexivity|].
  apply (main_dispatch_priority (lib := Mock.soapy) argv w).
  reflexivity.
Defined.

(** C4 as stated fails. On [--find --make --rate=abc] the conversion of
    the rate throws out of [main] and no workflow runs; on [--find --help]
    the run ends at [--help], and the find workflow, first in priority
    among those asked for, does not run. *)
Lemma workflow_flags_without_workflow :
  let w := Mock.start Mock.bench in
  let bad_rate := [Getopt "f" None; Getopt "m" None;
                   Getopt "r" (Some "abc")] in
  let helped := [Getopt "f" None; Getopt "h" None] in
  (given "f" bad_rate = true /\
   main (lib := Mock.soapy) bad_rate w = (Throw (std_exception "stod"), w)) /\
  (given "f" helped = true /\
   main (lib := Mock.soapy) helped w = (printBanner ;; printHelp) w /\
   calls (snd (main (lib := Mock.soapy) helped w)) = [] /\
   cout (snd (main (lib := Mock.soapy) helped w)) = EmptyString).
Proof.
  intros w bad_rate helped. split; [split|split; [|split; [|split]]].
  - reflexivity.
  - vm_compute. reflexivity.
  - reflexivity.
  - vm_compute. reflexivity.
  - vm_compute. reflexivity.
  - vm_compute. reflexivity.
Qed.

(** C5 as stated fails: an object thrown by the construction that is not
    a [std::exception] passes the handler; the make workflow returns no
    exit code and writes no message to the error stream. *)
Lemma makeDevice_foreign_exception_escapes :
  let run := makeDevice (lib := Mock.soapy) "driver=x"
               (Mock.start Mock.alien) in
  is_ok (fst (api_make (SoapySDR := Mock.soapy) "driver=x" Mock.alien))
    = false /\
  fst run = Throw foreign_exception /\
  fst run <> Ok EXIT_FAILURE /\
  cerr (snd run) = EmptyString.
Proof.
  intros run0. split; [reflexivity|]. split; [vm_compute; reflexivity|].
  split; [vm_compute; discriminate | vm_compute; reflexivity].
Qed.

(** ** Concrete runs of the further properties *)

(** X1 on the test machine. *)
Lemma probeDevice_success_witness :
  probeDevice (lib := Mock.soapy) "driver=null" (Mock.start Mock.bench) =
  (Ok EXIT_SUCCESS,
   World (lib := Mock.soapy)
     (Mock.with_live (1 - 1) (Mock.with_live (0 + 1) Mock.bench))
     (EmptyString ++ "Probe device " ++ "driver=null" ++ endl ++
      "probe text" ++ endl ++ endl)
     EmptyString
     ([] ++ [call_make (lib := Mock.soapy) "driver=null" (Some 7%nat);
             call_probe (lib := Mock.soapy) 7%nat;
             call_unmake (lib := Mock.soapy) 7%nat])).
Proof.
  apply (probeDevice_success (lib := Mock.soapy) "driver=null" "probe text"
           (Mock.start Mock.bench) 7%nat
           (Mock.with_live (0 + 1) Mock.bench)
           (Mock.with_live (0 + 1) Mock.bench)
           (Mock.with_live (1 - 1) (Mock.with_live (0 + 1) Mock.bench)));
    reflexivity.
Defined.

(** X2 on the test machine. *)
Lemma makeDevice_success_witness :
  makeDevice (lib := Mock.soapy) "driver=null" (Mock.start Mock.bench) =
  (Ok EXIT_SUCCESS,
   World (lib := Mock.soapy)
     (Mock.with_live (1 - 1) (Mock.with_live (0 + 1) Mock.bench))
     (EmptyString ++ "Make device " ++ "driver=null" ++ endl ++
      "  driver=" ++ "mock" ++ endl ++
      "  hardware=" ++ "mock" ++ endl ++
      lines_of (fun it => "  " ++ fst it ++ "=" ++ snd it ++ endl)
               [("origin", "test")] ++
      endl)
     EmptyString
     ([] ++ [call_make (lib := Mock.soapy) "driver=null" (Some 7%nat);
             call_unmake (lib := Mock.soapy) 7%nat])).
Proof.
  apply (makeDevice_success (lib := Mock.soapy) "driver=null" "mock" "mock"
           [("origin", "test")] (Mock.start Mock.bench) 7%nat
           (Mock.with_live (0 + 1) Mock.bench)
           (Mock.with_live (1 - 1) (Mock.with_live (0 + 1) Mock.bench)));
    reflexivity.
Defined.

(** X3 on the machine with nothing attached. *)
Lemma probeDevice_construction_error_witness :
  probeDevice (lib := Mock.soapy) "driver=x" (Mock.start Mock.bare) =
  (Ok EXIT_FAILURE,
   World (lib := Mock.soapy) Mock.bare
     (EmptyString ++ "Probe device " ++ "driver=x" ++ endl)
     (EmptyString ++ "Error probing device: " ++ "no match" ++ endl)
     ([] ++ [call_make (lib := Mock.soapy) "driver=x" None])).
Proof.
  apply (probeDevice_construction_error (lib := Mock.soapy)
           "driver=x" "no match" (Mock.start Mock.bare) Mock.bare).
  reflexivity.
Defined.

(** X6 on the test machine and the same devices in another order. *)
Lemma findDevices_sparse_order_independent_witness :
  Permutation
    (map (sparse_entry (lib := Mock.soapy)) (Mock.attached Mock.bench))
    (map (sparse_entry (lib := Mock.soapy)) (Mock.attached Mock.shuffled)) /\
  cout (snd (findDevices (lib := Mock.soapy) "" true
               (Mock.start Mock.bench))) =
  cout (snd (findDevices (lib := Mock.soapy) "" true
               (Mock.start Mock.shuffled))) /\
  fst (findDevices (lib := Mock.soapy) "" true (Mock.start Mock.bench)) =
  fst (findDevices (lib := Mock.soapy) "" true (Mock.start Mock.shuffled)).
Proof.
  assert (Hperm :
    Permutation
      (map (sparse_entry (lib := Mock.soapy)) (Mock.attached Mock.bench))
      (map (sparse_entry (lib := Mock.soapy)) (Mock.attached Mock.shuffled))).
  { vm_compute. apply Permutation_sym.
    apply (Permutation_cons_append ["zeta"; "alpha"]
             "driver=hackrf, serial=42"). }
  split; [exact Hperm|].
  apply (findDevices_sparse_order_independent (lib := Mock.soapy)
           "" "" (Mock.start Mock.bench) (Mock.start Mock.shuffled)).
  - exact Hperm.
  - reflexivity.
Defined.

(** X7 on the second device of the test machine. *)
Lemma findDevices_full_entry_witness :
  occurs ("Found device " ++ dec 1 ++ endl ++
          lines_of (fun it => "  " ++ fst it ++ " = " ++ snd it ++ endl)
                   [("driver", "null"); ("label", "alpha")] ++
          endl)
         (cout (snd (findDevices (lib := Mock.soapy) "" false
                       (Mock.start Mock.bench)))).
Proof.
  apply (findDevices_full_entry (lib := Mock.soapy) ""
           (Mock.start Mock.bench) 1%nat
           [("driver", "null"); ("label", "alpha")]).
  reflexivity.
Defined.

(** X9 on the formats of a converter. *)
Lemma join_names_separated_witness :
  join_names ["CF32"; "CS16"; "CS8"] = String.concat ", " ["CF32"; "CS16"; "CS8"].
Proof.
  apply (join_names_separated ["CF32"; "CS16"; "CS8"]).
  repeat constructor; discriminate.
Defined.

(** X13 on [--find=a --args --make=b --channels=0 --channels=1]. *)
Lemma main_last_value_wins_witness :
  let argv := [Getopt "f" (Some "a"); Getopt "a" None; Getopt "m" (Some "b");
               Getopt "n" (Some "0"); Getopt "n" (Some "1")] in
  let st := Locals (lib := Mock.soapy) "b" "1" EmptyString 0 EmptyString
                   true false true false in
  let w := Mock.start Mock.bench in
  option_loop argv initial_locals w = (Ok (inr st), w) /\
  argStr st = "b" /\ chanStr st = "1" /\
  (argStr st = last (supplied ["f"; "m"; "p"; "a"]%char argv) EmptyString /\
   driverName st = last (supplied ["c"]%char argv) EmptyString /\
   chanStr st = last (supplied ["n"]%char argv) EmptyString /\
   dirStr st = last (supplied ["d"]%char argv) EmptyString).
Proof.
  intros argv st w. split; [reflexivity|]. split; [reflexivity|].
  split; [reflexivity|].
  apply (main_last_value_wins (lib := Mock.soapy) argv w w st).
  reflexivity.
Defined.

(** X14 on [--sparse --check --args=driver=x] and a rejected option. *)
Lemma main_without_request_witness :
  let argv := [Getopt "s" None; Getopt "c" None;
               Getopt "a" (Some "driver=x"); Getopt "?" None] in
  let w := Mock.start Mock.bench in
  let run := main (lib := Mock.soapy) argv w in
  forallb requests_nothing argv = true /\
  (run = (when (negb (given "s" argv)) printBanner ;; printHelp) w /\
   fst run = Ok EXIT_SUCCESS /\
   cout (snd run) = cout w /\
   calls (snd run) = calls w).
Proof.
  intros argv w run0. split; [reflexivity|].
  apply (main_without_request (lib := Mock.soapy) argv w); reflexivity.
Defined.


(** X16 on [--check=null --args=driver=a] and its variant. *)
Lemma args_irrelevant_to_check_and_help_witness :
  let argv v := [Getopt "c" (Some "null"); Getopt "a" (Some v)] in
  let w := Mock.start Mock.bench in
  args_variant (argv "driver=a") (argv "driver=b") /\
  main (lib := Mock.soapy) (argv "driver=a") w =
  main (lib := Mock.soapy) (argv "driver=b") w.
Proof.
  intros argv w.
  assert (Hvariant : args_variant (argv "driver=a") (argv "driver=b"))
    by repeat constructor.
  split; [exact Hvariant|].
  apply (args_irrelevant_to_check_and_help (lib := Mock.soapy)
           (argv "driver=a") (argv "driver=b") w w
           (Locals (lib := Mock.soapy) "driver=a" EmptyString EmptyString 0
                   "null" false false false false)
           Hvariant).
  - reflexivity.
  - left. reflexivity.
Defined.

(** X10 on the device that fails under inspection. *)
Lemma probeDevice_probe_error_witness :
  probeDevice (lib := Mock.soapy) "" (Mock.start Mock.flaky) =
  (Ok EXIT_FAILURE,
   World (lib := Mock.soapy) (Mock.with_live (0 + 1) Mock.flaky)
     (EmptyString ++ "Probe device " ++ EmptyString ++ endl)
     (EmptyString ++ "Error probing device: " ++ "read timeout" ++ endl)
     ([] ++ [call_make (lib := Mock.soapy) "" (Some 7%nat);
             call_probe (lib := Mock.soapy) 7%nat])).
Proof.
  apply (probeDevice_probe_error (lib := Mock.soapy) "" "read timeout"
           (Mock.start Mock.flaky) 7%nat
           (Mock.with_live (0 + 1) Mock.flaky)
           (Mock.with_live (0 + 1) Mock.flaky));
    reflexivity.
Defined.

(** X11 on the test machine, whose first module loads and registers two
    factories. *)
Lemma printInfo_factories_witness :
  let run := printInfo (lib := Mock.soapy) (Mock.start Mock.bench) in
  let names := map fst (api_listFindFunctions (env (snd run))) in
  names = ["null"; "rtlsdr"] /\
  occurs ("Available factories... " ++
          match names with
          | [] => "No factories found!"
          | _ => String.concat ", " names
          end ++ endl ++ "Available converters..." ++ endl)
         (cout (snd run)).
Proof.
  intros run0 names.
  assert (Hnames : names = ["null"; "rtlsdr"]) by (vm_compute; reflexivity).
  split; [exact Hnames|].
  apply (printInfo_factories (lib := Mock.soapy) (Mock.start Mock.bench)).
  fold run0. fold names. rewrite Hnames.
  repeat constructor; discriminate.
Defined.
